(** * A proof-of-work block chain in Go: shallow embedding and verification

    The program under study is [main.go]: a [Block] record, a [Blockchain]
    holding a slice of blocks and a difficulty, the digest [calculateHash],
    the nonce search [mineBlock], the constructors [NewBlock],
    [NewGenesisBlock], [NewBlockchain] and the method [AddBlock].

    Go values are embedded as follows.
    - [string] is a byte string: Rocq's [string] (a list of 8-bit [ascii]).
    - [int64] and [int] (64 bits on the supported targets) are [Z]; the only
      arithmetic the program does on them, [nonce++], has its two's
      complement wrap-around written out ([wrap_int]).
    - [[]byte] is [list Z] with entries in [0, 256).
    - [[]*Block] is [list Block]: no statement of the program writes through
      a block pointer, so the pointed-to records are modelled by value.
    - A call either returns, panics, or is still running when the step
      budget of the model is used up: type [outcome].
    - [time.Now().Unix()] is an input of the call that reads the clock.
    - Memory is not modelled, but for the size above which the runtime
      refuses a single allocation with a panic ([max_alloc]).

    The Go standard library functions the program calls are embedded in
    modules named after their packages. *)

From Stdlib Require Import ZArith List String Ascii Bool Lia.
From Stdlib Require DecimalString DecimalFacts DecimalPos DecimalN DecimalZ.
Import ListNotations.
Local Open Scope string_scope.
Local Open Scope Z_scope.

(** ** Outcomes of a call *)

Inductive outcome (A : Type) : Type :=
| Done (a : A)            (* the call returned [a] *)
| Panic (msg : string)    (* the call panicked *)
| Timeout.                (* the step budget ran out before the call ended *)

Arguments Done {A} a.
Arguments Panic {A} msg.
Arguments Timeout {A}.

Definition bind {A B : Type} (m : outcome A) (k : A -> outcome B) : outcome B :=
  match m with
  | Done a => k a
  | Panic msg => Panic msg
  | Timeout => Timeout
  end.

Notation "x <- m ;; k" := (bind m (fun x => k))
  (at level 61, m at next level, right associativity).
Notation "' pat <- m ;; k" := (bind m (fun x => match x with pat => k end))
  (at level 61, pat pattern, m at next level, right associativity).

Definition panics {A : Type} (m : outcome A) : bool :=
  match m with Panic _ => true | _ => false end.

(** ** Machine integers *)

Definition min_int : Z := - 2 ^ 63.
Definition max_int : Z := 2 ^ 63 - 1.

(** The largest number of bytes the runtime accepts for one allocation
    ([maxAlloc], on the 64-bit targets with 48 bits of heap address); a
    larger request ends in a run-time panic. *)
Definition max_alloc : Z := 2 ^ 48.

(** The value of type [int] that a mathematical integer is reduced to. *)
Definition wrap_int (z : Z) : Z := (z + 2 ^ 63) mod 2 ^ 64 - 2 ^ 63.

(** ** Conversions between Go strings and byte slices *)

Definition byte_of_ascii (c : ascii) : Z := Z.of_N (N_of_ascii c).

(** [[]byte(s)] *)
Definition bytes_of_string (s : string) : list Z :=
  map byte_of_ascii (list_ascii_of_string s).

(** ** Package crypto/sha256 (FIPS 180-4) *)

Module sha256.

Definition mask32 : Z := 0xffffffff.

Definition add32 (x y : Z) : Z := Z.land (x + y) mask32.

Definition rotr (n x : Z) : Z :=
  Z.lor (Z.shiftr x n) (Z.land (Z.shiftl x (32 - n)) mask32).

Definition Ch (x y z : Z) : Z :=
  Z.lxor (Z.land x y) (Z.land (Z.lxor x mask32) z).

Definition Maj (x y z : Z) : Z :=
  Z.lxor (Z.lxor (Z.land x y) (Z.land x z)) (Z.land y z).

Definition bsig0 (x : Z) : Z := Z.lxor (Z.lxor (rotr 2 x) (rotr 13 x)) (rotr 22 x).
Definition bsig1 (x : Z) : Z := Z.lxor (Z.lxor (rotr 6 x) (rotr 11 x)) (rotr 25 x).
Definition ssig0 (x : Z) : Z := Z.lxor (Z.lxor (rotr 7 x) (rotr 18 x)) (Z.shiftr x 3).
Definition ssig1 (x : Z) : Z := Z.lxor (Z.lxor (rotr 17 x) (rotr 19 x)) (Z.shiftr x 10).

(** The first sixty-four primes. *)
Definition primes : list Z :=
  [2; 3; 5; 7; 11; 13; 17; 19; 23; 29; 31; 37; 41; 43; 47; 53;
   59; 61; 67; 71; 73; 79; 83; 89; 97; 101; 103; 107; 109; 113; 127; 131;
   137; 139; 149; 151; 157; 163; 167; 173; 179; 181; 191; 193; 197; 199;
   211; 223; 227; 229; 233; 239; 241; 251; 257; 263; 269; 271; 277; 281;
   283; 293; 307; 311].

(** Integer cube root by bisection: the largest [r] in [lo, hi) with
    [r^3 <= n], given [lo^3 <= n < hi^3]. *)
Fixpoint cbrt_between (fuel : nat) (n lo hi : Z) : Z :=
  match fuel with
  | O => lo
  | S fuel' =>
      if hi - lo <=? 1 then lo
      else let mid := (lo + hi) / 2 in
           if mid * mid * mid <=? n
           then cbrt_between fuel' n mid hi
           else cbrt_between fuel' n lo mid
  end.

Definition cbrt (n : Z) : Z := cbrt_between 200 n 0 (2 ^ 40).

(** Round constants: the first 32 bits of the fractional parts of the cube
    roots of the primes. *)
Definition K : list Z :=
  Eval vm_compute in map (fun p => Z.land (cbrt (p * 2 ^ 96)) mask32) primes.

(** Initial hash value: the first 32 bits of the fractional parts of the
    square roots of the first eight primes. *)
Definition init_words : list Z :=
  Eval vm_compute in
    map (fun p => Z.land (Z.sqrt (p * 2 ^ 64)) mask32) (firstn 8 primes).

(** The eight working registers, and equally the chaining value. *)
Record regs : Type := mkRegs {
  ra : Z; rb : Z; rc : Z; rd : Z; re : Z; rf : Z; rg : Z; rh : Z
}.

Definition regs_of_list (l : list Z) : regs :=
  mkRegs (nth 0 l 0) (nth 1 l 0) (nth 2 l 0) (nth 3 l 0)
         (nth 4 l 0) (nth 5 l 0) (nth 6 l 0) (nth 7 l 0).

Definition init : regs := Eval vm_compute in regs_of_list init_words.

Definition round (s : regs) (kw : Z * Z) : regs :=
  let t1 := add32 (add32 (add32 (add32 (rh s) (bsig1 (re s)))
                                (Ch (re s) (rf s) (rg s))) (fst kw)) (snd kw) in
  let t2 := add32 (bsig0 (ra s)) (Maj (ra s) (rb s) (rc s)) in
  mkRegs (add32 t1 t2) (ra s) (rb s) (rc s) (add32 (rd s) t1) (re s) (rf s) (rg s).

Definition add_regs (s t : regs) : regs :=
  mkRegs (add32 (ra s) (ra t)) (add32 (rb s) (rb t)) (add32 (rc s) (rc t))
         (add32 (rd s) (rd t)) (add32 (re s) (re t)) (add32 (rf s) (rf t))
         (add32 (rg s) (rg t)) (add32 (rh s) (rh t)).

(** Big-endian 32-bit words of a chunk of bytes. *)
Fixpoint be_words (n : nat) (p : list Z) : list Z :=
  match n with
  | O => []
  | S n' =>
      (Z.lor (Z.lor (Z.shiftl (nth 0 p 0) 24) (Z.shiftl (nth 1 p 0) 16))
             (Z.lor (Z.shiftl (nth 2 p 0) 8) (nth 3 p 0)))
      :: be_words n' (skipn 4 p)
  end.

(** Message schedule: [w] holds the words computed so far. *)
Fixpoint schedule (n : nat) (w : list Z) : list Z :=
  match n with
  | O => w
  | S n' =>
      let t := List.length w in
      let v := add32 (add32 (ssig1 (nth (t - 2) w 0)) (nth (t - 7) w 0))
                     (add32 (ssig0 (nth (t - 15) w 0)) (nth (t - 16) w 0)) in
      schedule n' (w ++ [v])
  end.

(** One 64-byte chunk. *)
Definition block (s : regs) (chunk : list Z) : regs :=
  let w := schedule 48 (be_words 16 chunk) in
  add_regs s (fold_left round (combine K w) s).

Fixpoint blocks (n : nat) (s : regs) (p : list Z) : regs :=
  match n with
  | O => s
  | S n' => blocks n' (block s (firstn 64 p)) (skipn 64 p)
  end.

(** Big-endian bytes of the low [8 * n] bits of [x]. *)
Fixpoint be_bytes (n : nat) (x : Z) : list Z :=
  match n with
  | O => []
  | S n' => Z.land (Z.shiftr x (8 * Z.of_nat n')) 0xff :: be_bytes n' x
  end.

(** Padding: a one bit, zero bits up to 56 mod 64 bytes, then the message
    length in bits as a 64-bit big-endian integer. *)
Definition pad (msg : list Z) : list Z :=
  let len := Z.of_nat (List.length msg) in
  msg ++ [0x80] ++ repeat 0 (Z.to_nat ((55 - len) mod 64))
      ++ be_bytes 8 (Z.land (8 * len) 0xffffffffffffffff).

Definition digest_bytes (s : regs) : list Z :=
  be_bytes 4 (ra s) ++ be_bytes 4 (rb s) ++ be_bytes 4 (rc s) ++ be_bytes 4 (rd s)
  ++ be_bytes 4 (re s) ++ be_bytes 4 (rf s) ++ be_bytes 4 (rg s) ++ be_bytes 4 (rh s).

(** The SHA-256 checksum of a message. *)
Definition Sum256 (msg : list Z) : list Z :=
  let p := pad msg in
  digest_bytes (blocks (Nat.div (List.length p) 64) init p).

(** The [hash.Hash] returned by [New]: it is determined by the bytes
    written to it so far. *)
Record digest : Type := mkDigest { written : list Z }.

Definition New : digest := mkDigest [].

(** [h.Write(p)] appends [p] to the message; it never returns an error. *)
Definition Write (h : digest) (p : list Z) : digest := mkDigest (written h ++ p).

(** [h.Sum(b)] appends the current checksum to [b]; [h] is unchanged. *)
Definition Sum (h : digest) (b : list Z) : list Z := b ++ Sum256 (written h).

End sha256.

(** ** Package encoding/hex *)

Module hex.

Definition hextable : string := "0123456789abcdef".

Definition hexchar (i : Z) : ascii :=
  match String.get (Z.to_nat i) hextable with
  | Some c => c
  | None => "0"%char
  end.

Fixpoint EncodeToString (src : list Z) : string :=
  match src with
  | [] => EmptyString
  | v :: rest =>
      String (hexchar (Z.shiftr v 4)) (String (hexchar (Z.land v 0x0f)) (EncodeToString rest))
  end.

End hex.

(** ** Package strconv *)

Module strconv.

Definition digits : string := "0123456789abcdefghijklmnopqrstuvwxyz".

Definition digit (d : Z) : ascii :=
  match String.get (Z.to_nat d) digits with
  | Some c => c
  | None => "0"%char
  end.

(** The digit loop of [formatBits] at base 10: digits of [u] are written
    in front of [a], least significant first. *)
Fixpoint formatBits (fuel : nat) (u : Z) (a : string) : string :=
  match fuel with
  | O => a
  | S fuel' =>
      if 10 <=? u
      then formatBits fuel' (u / 10) (String (digit (u mod 10)) a)
      else String (digit u) a
  end.

(** [FormatInt(i, 10)]; the program passes no other base.  The loop runs
    once per decimal digit, which the bit length of [u] bounds. *)
Definition FormatInt (i : Z) : string :=
  let u := Z.abs i in
  let a := formatBits (S (Z.to_nat (Z.log2 u))) u "" in
  if i <? 0 then String "-" a else a.

(** [Itoa(i)] is [FormatInt(int64(i), 10)]. *)
Definition Itoa (i : Z) : string := FormatInt i.

End strconv.

(** ** Package strings *)

Module strings.

Fixpoint repeat_string (s : string) (n : nat) : string :=
  match n with
  | O => ""
  | S n' => s ++ repeat_string s n'
  end.

(** [Repeat(s, count)] panics on a negative count, when the length of the
    result overflows [int], and when the buffer for the result is larger
    than the runtime allocates. *)
Definition Repeat (s : string) (count : Z) : outcome string :=
  let n := Z.of_nat (String.length s) * count in
  if count <? 0 then Panic "strings: negative Repeat count"
  else if max_int <? n then Panic "strings: Repeat output length overflow"
  else if max_alloc <? n then Panic "runtime error: makeslice: len out of range"
  else Done (repeat_string s (Z.to_nat count)).

(** [HasPrefix(s, prefix)] is
    [len(s) >= len(prefix) && s[:len(prefix)] == prefix]. *)
Definition HasPrefix (s prefix : string) : bool :=
  (String.length prefix <=? String.length s)%nat
  && String.eqb (substring 0 (String.length prefix) s) prefix.

End strings.

(** ** Slices *)

(** The text of the run-time panic for the index [i] into a slice of
    length [len]. *)
Definition index_out_of_range (i len : Z) : string :=
  if i <? 0
  then "runtime error: index out of range [" ++ strconv.FormatInt i ++ "]"
  else "runtime error: index out of range [" ++ strconv.FormatInt i
       ++ "] with length " ++ strconv.FormatInt len.

(** [s[i]]: a run-time panic when [i] is out of range. *)
Definition index {A : Type} (s : list A) (i : Z) : outcome A :=
  let len := Z.of_nat (List.length s) in
  if (i <? 0) || (len <=? i)
  then Panic (index_out_of_range i len)
  else match nth_error s (Z.to_nat i) with
       | Some x => Done x
       | None => Panic (index_out_of_range i len)
       end.

(** ** The program *)

Record Block : Type := mkBlock {
  Timestamp : Z;
  Data : string;
  PrevBlockHash : string;
  Hash : string;
  Nonce : Z
}.

Record Blockchain : Type := mkBlockchain {
  Blocks : list Block;
  Difficulty : Z
}.

Definition calculateHash (timestamp : Z) (data prevHash : string) (nonce : Z) : string :=
  let record := strconv.FormatInt timestamp ++ data ++ prevHash ++ strconv.Itoa nonce in
  let h := sha256.New in
  let h := sha256.Write h (bytes_of_string record) in
  let hashed := sha256.Sum h [] in
  hex.EncodeToString hashed.

(** The [for] loop of [mineBlock], entered with the current [nonce]; one
    unit of [fuel] pays for one iteration. *)
Fixpoint mine_loop (fuel : nat) (target : string) (timestamp : Z)
         (data prevHash : string) (nonce : Z) : outcome (Z * string) :=
  match fuel with
  | O => Timeout
  | S fuel' =>
      let hash := calculateHash timestamp data prevHash nonce in
      if strings.HasPrefix hash target
      then Done (nonce, hash)
      else mine_loop fuel' target timestamp data prevHash (wrap_int (nonce + 1))
  end.

Definition mineBlock (fuel : nat) (difficulty : Z) (timestamp : Z)
           (data prevHash : string) : outcome (Z * string) :=
  let nonce := 0 in
  target <- strings.Repeat "0" difficulty ;;
  mine_loop fuel target timestamp data prevHash nonce.

(** [now] is what [time.Now().Unix()] returns in this call. *)
Definition NewBlock (fuel : nat) (now : Z) (data prevHash : string)
           (difficulty : Z) : outcome Block :=
  let timestamp := now in
  '(nonce, hash) <- mineBlock fuel difficulty timestamp data prevHash ;;
  Done {| Timestamp := timestamp;
          Data := data;
          PrevBlockHash := prevHash;
          Hash := hash;
          Nonce := nonce |}.

Definition NewGenesisBlock (fuel : nat) (now : Z) (difficulty : Z) : outcome Block :=
  NewBlock fuel now "Genesis Block" "" difficulty.

Definition NewBlockchain (fuel : nat) (now : Z) (difficulty : Z) : outcome Blockchain :=
  genesisBlock <- NewGenesisBlock fuel now difficulty ;;
  Done {| Blocks := [genesisBlock]; Difficulty := difficulty |}.

(** The method updates the chain in place; the model returns its new value. *)
Definition AddBlock (fuel : nat) (now : Z) (bc : Blockchain) (data : string)
  : outcome Blockchain :=
  prevBlock <- index (Blocks bc) (Z.of_nat (List.length (Blocks bc)) - 1) ;;
  newBlock <- NewBlock fuel now data (Hash prevBlock) (Difficulty bc) ;;
  Done {| Blocks := Blocks bc ++ [newBlock]; Difficulty := Difficulty bc |}.

(** The chains a caller can obtain: one call of [NewBlockchain] followed by
    any number of calls of [AddBlock], each with its own clock reading. *)
Inductive produced : Blockchain -> Prop :=
| produced_create fuel now difficulty bc :
    NewBlockchain fuel now difficulty = Done bc -> produced bc
| produced_append fuel now data bc bc' :
    produced bc -> AddBlock fuel now bc data = Done bc' -> produced bc'.

(** ** Vocabulary of the properties *)

(** Number of ['0'] characters a string starts with. *)
Fixpoint leading_zeros (s : string) : nat :=
  match s with
  | String c s' => if Ascii.eqb c "0" then S (leading_zeros s') else O
  | EmptyString => O
  end.

(** The proof-of-work predicate at difficulty [d]. *)
Definition meets (d : Z) (hash : string) : bool :=
  d <=? Z.of_nat (leading_zeros hash).

Definition is_lower_hex (c : ascii) : bool :=
  existsb (Ascii.eqb c) (list_ascii_of_string "0123456789abcdef").

(** Sixty-four lowercase hexadecimal digits. *)
Definition is_digest_string (s : string) : bool :=
  (String.length s =? 64)%nat && forallb is_lower_hex (list_ascii_of_string s).

Definition is_byte (b : Z) : Prop := 0 <= b < 256.

(** The test the search loop makes on a nonce. *)
Definition hit (target : string) (timestamp : Z) (data prevHash : string)
           (nonce : Z) : bool :=
  strings.HasPrefix (calculateHash timestamp data prevHash nonce) target.

(** The nonce tried in iteration [k] of the search, counting from zero. *)
Definition nonce_at (k : nat) : Z := wrap_int (Z.of_nat k).

(** Reading hexadecimal text back: the value of a digit, and the bytes that
    a string of digit pairs denotes. *)
Definition hex_digit_value (c : ascii) : option Z :=
  let n := Z.of_N (N_of_ascii c) in
  if (48 <=? n) && (n <=? 57) then Some (n - 48)
  else if (97 <=? n) && (n <=? 102) then Some (n - 97 + 10)
  else None.

Fixpoint hex_decode (s : string) : option (list Z) :=
  match s with
  | EmptyString => Some []
  | String _ EmptyString => None
  | String hi (String lo rest) =>
      match hex_digit_value hi, hex_digit_value lo, hex_decode rest with
      | Some h, Some l, Some bytes => Some (16 * h + l :: bytes)
      | _, _, _ => None
      end
  end.

(** The digest as the specification words it: SHA-256, in lowercase hex, of
    the decimal text of the timestamp, the payload, the previous hash and
    the decimal text of the nonce, in this order.  Decimal text is that of
    the standard library's printer of decimal numerals. *)
Definition decimal_text (z : Z) : string :=
  DecimalString.NilZero.string_of_int (Z.to_int z).

Definition spec_digest (timestamp : Z) (payload prev_hash : string) (nonce : Z) : string :=
  hex.EncodeToString
    (sha256.Sum256
       (bytes_of_string
          (decimal_text timestamp ++ payload ++ prev_hash ++ decimal_text nonce))).

(** The numeral of [u] built by the digit loop, for comparison with the
    standard numerals. *)
Definition udigit (k : Z) (d : Decimal.uint) : Decimal.uint :=
  match k with
  | 0 => Decimal.D0 d | 1 => Decimal.D1 d | 2 => Decimal.D2 d | 3 => Decimal.D3 d
  | 4 => Decimal.D4 d | 5 => Decimal.D5 d | 6 => Decimal.D6 d | 7 => Decimal.D7 d
  | 8 => Decimal.D8 d | _ => Decimal.D9 d
  end.

(** The number a numeral denotes, most significant digit first. *)
Definition numeral_value (d : Decimal.uint) : N :=
  DecimalPos.Unsigned.of_lu (Decimal.rev d).

Fixpoint formatBits_uint (fuel : nat) (u : Z) (a : Decimal.uint) : Decimal.uint :=
  match fuel with
  | O => a
  | S fuel' =>
      if 10 <=? u
      then formatBits_uint fuel' (u / 10) (udigit (u mod 10) a)
      else udigit u a
  end.

(** SHA-256 of a string, in hex, for the test vectors. *)
Definition sha256_hex (s : string) : string :=
  hex.EncodeToString (sha256.Sum256 (bytes_of_string s)).

(** ** A run of the program

    The chain that [main] builds, here at difficulty 1 to keep the search
    short, with the clock readings 1700000014, 1700000027 and 1700000031. *)

Definition demo_genesis : Block :=
  {| Timestamp := 1700000014;
     Data := "Genesis Block";
     PrevBlockHash := "";
     Hash := "0559c2f37370901fb5661c5bb32ac72c170af88600d4e309f57fbaa4dd5a6883";
     Nonce := 2 |}.

Definition demo_block1 : Block :=
  {| Timestamp := 1700000027;
     Data := "Send 1 BTC to Alex";
     PrevBlockHash := "0559c2f37370901fb5661c5bb32ac72c170af88600d4e309f57fbaa4dd5a6883";
     Hash := "09f1b0244bdff5290fbe73d9f2376a2384be5a97ab7da895fd8b442a63c57a43";
     Nonce := 1 |}.

Definition demo_block2 : Block :=
  {| Timestamp := 1700000031;
     Data := "Send 2 BTC to Ben";
     PrevBlockHash := "09f1b0244bdff5290fbe73d9f2376a2384be5a97ab7da895fd8b442a63c57a43";
     Hash := "05c4288cd5fa3446a37f1442d3dbce14e42b9d0ac7fa549489d1a75f0913909e";
     Nonce := 3 |}.

Definition demo_chain0 : Blockchain := {| Blocks := [demo_genesis]; Difficulty := 1 |}.
Definition demo_chain1 : Blockchain :=
  {| Blocks := [demo_genesis; demo_block1]; Difficulty := 1 |}.
Definition demo_chain2 : Blockchain :=
  {| Blocks := [demo_genesis; demo_block1; demo_block2]; Difficulty := 1 |}.

(** ** Standard output, the logger and [main] *)

(** What the program has written: the text on standard output, and the
    messages handed to the standard logger, oldest first.  The logger puts
    the date and the time in front of each message and writes it to standard
    error; that prefix is not modelled. *)
Record world : Type := mkWorld {
  stdout : string;
  logged : list string
}.

(** The line feed that the Go source writes as a backslash followed by n. *)
Definition nl : string := String (ascii_of_nat 10) "".

Module fmt.

(** [Printf(format, operand)]: the argument is the format with its verb
    replaced by the operand, [%s] by a string itself and [%d] by the decimal
    text of an integer.  The program ignores the results of the call. *)
Definition Printf (w : world) (formatted : string) : world :=
  {| stdout := stdout w ++ formatted; logged := logged w |}.

(** [Println()] without operands writes a line feed. *)
Definition Println (w : world) : world :=
  {| stdout := stdout w ++ nl; logged := logged w |}.

End fmt.

Module log.

(** [Println(msg)] hands [msg] to the standard logger. *)
Definition Println (w : world) (msg : string) : world :=
  {| stdout := stdout w; logged := (logged w ++ [msg])%list |}.

End log.

(** The body of the [range] loop of [main], for the block at index [i]. *)
Definition print_block (w : world) (i : Z) (block : Block) (bc : Blockchain) : world :=
  let w := fmt.Printf w ("======= Block " ++ strconv.FormatInt i ++ " =======" ++ nl) in
  let w := fmt.Printf w ("Data:          " ++ Data block ++ nl) in
  let w := fmt.Printf w ("Timestamp:     " ++ strconv.FormatInt (Timestamp block) ++ nl) in
  let w := fmt.Printf w ("Prev. Hash:    " ++ PrevBlockHash block ++ nl) in
  let w := fmt.Printf w ("Hash:          " ++ Hash block ++ nl) in
  let w := fmt.Printf w ("Nonce:         " ++ strconv.FormatInt (Nonce block) ++ nl) in
  let w := fmt.Printf w ("PoW Difficulty:  " ++ strconv.FormatInt (Difficulty bc) ++ nl) in
  fmt.Println w.

(** [for i, block := range blocks], entered at index [i]. *)
Fixpoint print_blocks (w : world) (i : Z) (blocks : list Block) (bc : Blockchain) : world :=
  match blocks with
  | [] => w
  | block :: rest => print_blocks (print_block w i block bc) (i + 1) rest bc
  end.

(** [now0], [now1] and [now2] are the clock readings of the three calls of
    [NewBlock] that [main] causes; [fuel] bounds each of the three searches. *)
Definition main (fuel : nat) (now0 now1 now2 : Z) (w : world) : outcome world :=
  let difficulty := 4 in
  let w := log.Println w "Creating a new blockchain..." in
  bc <- NewBlockchain fuel now0 difficulty ;;
  let w := log.Println w "Blockchain created!" in
  let w := log.Println w "Mining block 1 (Send 1 BTC to Alex)..." in
  bc <- AddBlock fuel now1 bc "Send 1 BTC to Alex" ;;
  let w := log.Println w "Block 1 added." in
  let w := log.Println w "Mining block 2 (Send 2 BTC to Ben)..." in
  bc <- AddBlock fuel now2 bc "Send 2 BTC to Ben" ;;
  let w := log.Println w "Block 2 added." in
  let w := log.Println w (nl ++ "--- Printing Blockchain ---") in
  Done (print_blocks w 0 (Blocks bc) bc).

(** ** Vocabulary of further properties *)

(** A sequence of calls [bc.AddBlock(data)], each with the clock reading of
    its [NewBlock]; it stops at the first call that does not return. *)
Fixpoint AddBlocks (fuel : nat) (bc : Blockchain) (calls : list (Z * string))
  : outcome Blockchain :=
  match calls with
  | [] => Done bc
  | (now, data) :: rest =>
      bc' <- AddBlock fuel now bc data ;;
      AddBlocks fuel bc' rest
  end.

(** The text of one block as [main] prints it. *)
Definition block_text (i : Z) (block : Block) (difficulty : Z) : string :=
  "======= Block " ++ decimal_text i ++ " =======" ++ nl
  ++ "Data:          " ++ Data block ++ nl
  ++ "Timestamp:     " ++ decimal_text (Timestamp block) ++ nl
  ++ "Prev. Hash:    " ++ PrevBlockHash block ++ nl
  ++ "Hash:          " ++ Hash block ++ nl
  ++ "Nonce:         " ++ decimal_text (Nonce block) ++ nl
  ++ "PoW Difficulty:  " ++ decimal_text difficulty ++ nl
  ++ nl.

(** The messages [main] logs, in order. *)
Definition main_messages : list string :=
  [ "Creating a new blockchain...";
    "Blockchain created!";
    "Mining block 1 (Send 1 BTC to Alex)...";
    "Block 1 added.";
    "Mining block 2 (Send 2 BTC to Ben)...";
    "Block 2 added.";
    nl ++ "--- Printing Blockchain ---" ].

(** A run of [main] proper, at its difficulty 4, with clock readings at
    which the three searches are short. *)
Definition run_genesis : Block :=
  {| Timestamp := 1700146207;
     Data := "Genesis Block";
     PrevBlockHash := "";
     Hash := "00006fe44d1f65c165d9bcf5bb358af5cd923ebda5b4ae45d90c3b4bcfd5fc36";
     Nonce := 1 |}.

Definition run_block1 : Block :=
  {| Timestamp := 1700189420;
     Data := "Send 1 BTC to Alex";
     PrevBlockHash := "00006fe44d1f65c165d9bcf5bb358af5cd923ebda5b4ae45d90c3b4bcfd5fc36";
     Hash := "0000fd93f046df64da439eb8a218903189116b4de6326ed99dbe646e7f240110";
     Nonce := 2 |}.

Definition run_block2 : Block :=
  {| Timestamp := 1700210161;
     Data := "Send 2 BTC to Ben";
     PrevBlockHash := "0000fd93f046df64da439eb8a218903189116b4de6326ed99dbe646e7f240110";
     Hash := "0000c3489c784d772f00e36a09a6208de0346e84f28109ab4e2f56863e3cf787";
     Nonce := 1 |}.

Definition run_chain : Blockchain :=
  {| Blocks := [run_genesis; run_block1; run_block2]; Difficulty := 4 |}.

Definition silent : world := {| stdout := ""; logged := [] |}.

Definition run_world : world :=
  {| stdout := block_text 0 run_genesis 4 ++ block_text 1 run_block1 4
               ++ block_text 2 run_block2 4;
     logged := main_messages |}.

(** * Verification *)

(** ** Test vectors of the library models *)

Example sha256_empty :
  sha256_hex "" = "e3b0c44298fc1c149afbf4c8996fb92427ae41e4649b934ca495991b7852b855".
Proof. vm_compute. reflexivity. Qed.

Example sha256_abc :
  sha256_hex "abc" = "ba7816bf8f01cfea414140de5dae2223b00361a396177a9cb410ff61f20015ad".
Proof. vm_compute. reflexivity. Qed.

Example sha256_two_blocks :
  sha256_hex "abcdbcdecdefdefgefghfghighijhijkijkljklmklmnlmnomnopnopq"
  = "248d6a61d20638b8e5c026930c3e6039a33ce45964ff2167f6ecedd419db06c1".
Proof. vm_compute. reflexivity. Qed.

Example sha256_round_constants :
  nth 0 sha256.K 0 = 0x428a2f98 /\ nth 63 sha256.K 0 = 0xc67178f2
  /\ sha256.ra sha256.init = 0x6a09e667 /\ sha256.rh sha256.init = 0x5be0cd19.
Proof. repeat split. Qed.

Example FormatInt_examples :
  strconv.FormatInt 0 = "0" /\ strconv.FormatInt 1700000000 = "1700000000"
  /\ strconv.FormatInt (-42) = "-42" /\ strconv.FormatInt min_int = "-9223372036854775808"
  /\ strconv.Itoa max_int = "9223372036854775807".
Proof. repeat split. Qed.

Example HasPrefix_examples :
  strings.HasPrefix "00ab" "00" = true /\ strings.HasPrefix "0a" "00" = false
  /\ strings.HasPrefix "0" "00" = false /\ strings.HasPrefix "abc" "" = true.
Proof. repeat split. Qed.

Example Repeat_examples :
  strings.Repeat "0" 4 = Done "0000" /\ strings.Repeat "0" 0 = Done ""
  /\ strings.Repeat "0" (-1) = Panic "strings: negative Repeat count"
  /\ strings.Repeat "ab" max_int = Panic "strings: Repeat output length overflow"
  /\ strings.Repeat "0" max_int = Panic "runtime error: makeslice: len out of range".
Proof. repeat split. Qed.

Example index_examples :
  index [7; 8; 9] 2 = Done 9
  /\ index (@nil Z) (-1) = Panic "runtime error: index out of range [-1]"
  /\ index [7; 8; 9] 3 = Panic "runtime error: index out of range [3] with length 3".
Proof. repeat split. Qed.

Example calculateHash_example :
  calculateHash 1700000000 "Genesis Block" "" 29
  = "097f73080189fd0447a8b9e5f3144f77820cd016792151240768ce45077b9f7c".
Proof. vm_compute. reflexivity. Qed.

(** ** Outcomes *)

Lemma bind_Done {A B : Type} (m : outcome A) (k : A -> outcome B) (b : B) :
  bind m k = Done b <-> exists a, m = Done a /\ k a = Done b.
Proof.
  split.
  - destruct m as [a | msg | ]; simpl; intros H; try discriminate.
    exists a; split; [reflexivity | exact H].
  - intros (a & -> & H). exact H.
Qed.

Lemma panics_bind {A B : Type} (m : outcome A) (k : A -> outcome B) :
  panics m = false -> (forall a, m = Done a -> panics (k a) = false) ->
  panics (bind m k) = false.
Proof.
  destruct m as [a | msg | ]; simpl; intros Hm Hk; auto; discriminate.
Qed.

(** ** Machine integers *)

Lemma wrap_int_id (z : Z) : min_int <= z <= max_int -> wrap_int z = z.
Proof.
  unfold wrap_int, min_int, max_int. intros H.
  rewrite Z.mod_small by lia. lia.
Qed.

Lemma wrap_int_range (z : Z) : min_int <= wrap_int z <= max_int.
Proof.
  unfold wrap_int, min_int, max_int.
  pose proof (Z.mod_pos_bound (z + 2 ^ 63) (2 ^ 64) ltac:(lia)). lia.
Qed.

Lemma wrap_int_succ (z : Z) : wrap_int (wrap_int z + 1) = wrap_int (z + 1).
Proof.
  unfold wrap_int. f_equal.
  replace ((z + 2 ^ 63) mod 2 ^ 64 - 2 ^ 63 + 1 + 2 ^ 63)
    with ((z + 2 ^ 63) mod 2 ^ 64 + 1) by lia.
  rewrite Z.add_mod_idemp_l by lia. f_equal. lia.
Qed.

Lemma wrap_int_mod (z : Z) : wrap_int (z mod 2 ^ 64) = wrap_int z.
Proof.
  unfold wrap_int. f_equal.
  rewrite Z.add_mod_idemp_l by lia. reflexivity.
Qed.

Lemma nonce_at_succ (k : nat) : wrap_int (nonce_at k + 1) = nonce_at (S k).
Proof.
  unfold nonce_at. rewrite wrap_int_succ. f_equal. lia.
Qed.

Lemma nonce_at_small (k : nat) : Z.of_nat k <= max_int -> nonce_at k = Z.of_nat k.
Proof.
  intros H. apply wrap_int_id. unfold min_int. lia.
Qed.

(** A non-negative nonce is tried first in the iteration of its own value. *)
Lemma nonce_at_nonneg (k : nat) :
  0 <= nonce_at k ->
  nonce_at k = Z.of_nat k mod 2 ^ 64 /\ nonce_at (Z.to_nat (nonce_at k)) = nonce_at k.
Proof.
  intros H.
  assert (E : nonce_at k = Z.of_nat k mod 2 ^ 64).
  { unfold nonce_at in *. rewrite <- wrap_int_mod in H. rewrite <- wrap_int_mod.
    pose proof (Z.mod_pos_bound (Z.of_nat k) (2 ^ 64) ltac:(lia)) as B.
    set (r := Z.of_nat k mod 2 ^ 64) in *.
    apply wrap_int_id. unfold min_int, max_int.
    destruct (Z_lt_le_dec r (2 ^ 63)) as [L | L]; [lia | exfalso].
    unfold wrap_int in H.
    replace (r + 2 ^ 63) with ((r - 2 ^ 63) + 1 * 2 ^ 64) in H by lia.
    rewrite Z.mod_add in H by lia.
    rewrite Z.mod_small in H by lia. lia. }
  split; [exact E |].
  unfold nonce_at at 1. rewrite Z2Nat.id by lia.
  pose proof (wrap_int_range (Z.of_nat k)) as R. fold (nonce_at k) in R.
  apply wrap_int_id. unfold min_int in *. lia.
Qed.

(** ** Strings *)

Lemma substring_0_0 (s : string) : substring 0 0 s = "".
Proof. destruct s; reflexivity. Qed.

Lemma prefix_cons (a b : ascii) (p s : string) :
  String.prefix (String a p) (String b s) = Ascii.eqb a b && String.prefix p s.
Proof.
  cbn [String.prefix].
  destruct (ascii_dec a b) as [-> | N].
  - now rewrite Ascii.eqb_refl.
  - apply Ascii.eqb_neq in N. now rewrite N.
Qed.

Lemma prefix_nil (s : string) : String.prefix "" s = true.
Proof. destruct s; reflexivity. Qed.

(** [HasPrefix] decides the prefix relation of the standard library. *)
Lemma HasPrefix_prefix (p s : string) : strings.HasPrefix s p = String.prefix p s.
Proof.
  unfold strings.HasPrefix. revert s.
  induction p as [| c p IH]; intros s.
  - cbn [String.length]. now rewrite substring_0_0, prefix_nil.
  - destruct s as [| c' s]; [reflexivity |].
    rewrite prefix_cons, <- IH.
    cbn [String.length substring String.eqb Nat.leb].
    rewrite (Ascii.eqb_sym c' c).
    destruct (Ascii.eqb c c'), (String.length p <=? String.length s)%nat; reflexivity.
Qed.

Lemma repeat_zero_succ (n : nat) :
  strings.repeat_string "0" (S n) = String "0" (strings.repeat_string "0" n).
Proof. reflexivity. Qed.

Lemma length_repeat_zero (n : nat) : String.length (strings.repeat_string "0" n) = n.
Proof.
  induction n as [| n IH]; [reflexivity |].
  rewrite repeat_zero_succ. simpl. now rewrite IH.
Qed.

(** A run of [n] zeros is a prefix exactly of the strings with at least [n]
    leading zeros. *)
Lemma HasPrefix_zeros (n : nat) (s : string) :
  strings.HasPrefix s (strings.repeat_string "0" n) = (n <=? leading_zeros s)%nat.
Proof.
  rewrite HasPrefix_prefix. revert s.
  induction n as [| n IH]; intros s.
  - apply prefix_nil.
  - rewrite repeat_zero_succ. destruct s as [| c s]; [reflexivity |].
    rewrite prefix_cons, IH, (Ascii.eqb_sym "0" c). cbn [leading_zeros].
    destruct (Ascii.eqb c "0"); reflexivity.
Qed.

Lemma leading_zeros_le_length (s : string) : (leading_zeros s <= String.length s)%nat.
Proof.
  induction s as [| c s IH]; simpl; [lia |].
  destruct (Ascii.eqb c "0"); lia.
Qed.

Lemma Repeat_Done (d : Z) (target : string) :
  strings.Repeat "0" d = Done target <->
  0 <= d <= max_alloc /\ target = strings.repeat_string "0" (Z.to_nat d).
Proof.
  unfold strings.Repeat. cbv zeta. cbn [String.length].
  replace (Z.of_nat 1 * d) with d by lia.
  unfold max_int, max_alloc.
  destruct (Z.ltb_spec d 0); [split; [discriminate | lia] |].
  destruct (Z.ltb_spec (2 ^ 63 - 1) d); [split; [discriminate | lia] |].
  destruct (Z.ltb_spec (2 ^ 48) d); [split; [discriminate | lia] |].
  split.
  - intros [= <-]. split; [lia | reflexivity].
  - intros [_ ->]. reflexivity.
Qed.

Lemma Repeat_no_panic (d : Z) : 0 <= d <= max_alloc -> panics (strings.Repeat "0" d) = false.
Proof.
  intros H. rewrite (proj2 (Repeat_Done d _) (conj H eq_refl)). reflexivity.
Qed.

(** [Repeat] has no third way: it returns the run of zeros or it panics. *)
Lemma Repeat_panics (d : Z) :
  panics (strings.Repeat "0" d) = false ->
  strings.Repeat "0" d = Done (strings.repeat_string "0" (Z.to_nat d)).
Proof.
  unfold strings.Repeat. cbv zeta.
  destruct (d <? 0); [discriminate |].
  destruct (max_int <? _); [discriminate |].
  destruct (max_alloc <? _); [discriminate | reflexivity].
Qed.

(** The test of the search loop is the proof-of-work predicate. *)
Lemma HasPrefix_meets (d : Z) (target hash : string) :
  strings.Repeat "0" d = Done target -> strings.HasPrefix hash target = meets d hash.
Proof.
  intros H. apply Repeat_Done in H. destruct H as [[H0 _] ->].
  rewrite HasPrefix_zeros. unfold meets.
  destruct (Nat.leb_spec (Z.to_nat d) (leading_zeros hash));
    destruct (Z.leb_spec d (Z.of_nat (leading_zeros hash))); try reflexivity; lia.
Qed.

(** ** The search loop *)

Section Search.

Variables (target : string) (timestamp : Z) (data prevHash : string).

Local Abbreviation test := (hit target timestamp data prevHash).
Local Abbreviation run fuel := (mine_loop fuel target timestamp data prevHash).

Lemma mine_loop_step (fuel : nat) (nonce : Z) :
  run (S fuel) nonce
  = if test nonce
    then Done (nonce, calculateHash timestamp data prevHash nonce)
    else run fuel (wrap_int (nonce + 1)).
Proof. reflexivity. Qed.

Lemma mine_loop_no_panic (fuel : nat) (nonce : Z) : panics (run fuel nonce) = false.
Proof.
  revert nonce. induction fuel as [| fuel IH]; intros nonce; [reflexivity |].
  rewrite mine_loop_step. destruct (test nonce); [reflexivity | apply IH].
Qed.

(** More fuel does not change a result. *)
Lemma mine_loop_mono (fuel fuel' : nat) (nonce : Z) (r : Z * string) :
  (fuel <= fuel')%nat -> run fuel nonce = Done r -> run fuel' nonce = Done r.
Proof.
  revert fuel' nonce. induction fuel as [| fuel IH]; intros fuel' nonce L.
  - discriminate.
  - destruct fuel' as [| fuel']; [lia |]. rewrite !mine_loop_step.
    destruct (test nonce); [trivial |]. apply IH. lia.
Qed.

(** The loop entered in iteration [i] returns in the first iteration
    [k >= i] whose nonce passes the test, if its fuel reaches that far. *)
Lemma mine_loop_Done (fuel i : nat) (n : Z) (h : string) :
  run fuel (nonce_at i) = Done (n, h) <->
  exists k, (i <= k < i + fuel)%nat /\ n = nonce_at k
            /\ h = calculateHash timestamp data prevHash n /\ test n = true
            /\ forall j, (i <= j < k)%nat -> test (nonce_at j) = false.
Proof.
  revert i. induction fuel as [| fuel IH]; intros i.
  - split; [discriminate | intros (k & K & _); lia].
  - rewrite mine_loop_step. destruct (test (nonce_at i)) eqn:E.
    + split.
      * intros [= <- <-]. exists i.
        split; [lia |]. do 3 (split; [trivial |]). intros j J; lia.
      * intros (k & K & -> & -> & Hk & Hj).
        destruct (Nat.eq_dec k i) as [-> | N]; [reflexivity |].
        rewrite (Hj i) in E by lia. discriminate.
    + rewrite nonce_at_succ, (IH (S i)).
      split.
      * intros (k & K & -> & -> & Hk & Hj). exists k.
        split; [lia |]. do 3 (split; [trivial |]).
        intros j J. destruct (Nat.eq_dec j i) as [-> | N]; [exact E | apply Hj; lia].
      * intros (k & K & -> & -> & Hk & Hj). exists k.
        assert (k <> i) by (intros ->; rewrite E in Hk; discriminate).
        split; [lia |]. do 3 (split; [trivial |]).
        intros j J. apply Hj. lia.
Qed.

(** While the counter has not wrapped the nonce is the iteration number:
    a result with a non-negative nonce [n] was found in iteration [n], and
    every smaller non-negative nonce failed the test. *)
Lemma mine_loop_least (fuel : nat) (n : Z) (h : string) :
  run fuel 0 = Done (n, h) -> 0 <= n -> forall m, 0 <= m < n -> test m = false.
Proof.
  intros H Hn. change 0 with (nonce_at 0) in H.
  apply mine_loop_Done in H. destruct H as (k & K & -> & _ & Hk & Hj).
  destruct (nonce_at_nonneg k Hn) as [E1 E2].
  set (k' := Z.to_nat (nonce_at k)) in *.
  assert (L : (k' <= k)%nat).
  { unfold k'. rewrite E1.
    pose proof (Z.mod_le (Z.of_nat k) (2 ^ 64) ltac:(lia) ltac:(lia)). lia. }
  assert (k' = k).
  { destruct (Nat.eq_dec k' k) as [e | N]; [exact e | exfalso].
    rewrite <- E2, (Hj k') in Hk by lia. discriminate. }
  intros m M.
  replace m with (nonce_at (Z.to_nat m)).
  - apply Hj. lia.
  - pose proof (wrap_int_range (Z.of_nat k)) as R. fold (nonce_at k) in R.
    rewrite nonce_at_small by lia. lia.
Qed.

(** A search that ends within [2^63] iterations returns a non-negative nonce. *)
Lemma mine_loop_nonneg (fuel : nat) (n : Z) (h : string) :
  Z.of_nat fuel <= 2 ^ 63 -> run fuel 0 = Done (n, h) -> 0 <= n.
Proof.
  intros F H. change 0 with (nonce_at 0) in H.
  apply mine_loop_Done in H. destruct H as (k & K & -> & _).
  rewrite nonce_at_small; unfold max_int; lia.
Qed.

(** A test that no nonce passes keeps the loop running. *)
Lemma mine_loop_Timeout (fuel : nat) (nonce : Z) :
  (forall n, test n = false) -> run fuel nonce = Timeout.
Proof.
  intros H. revert nonce. induction fuel as [| fuel IH]; intros nonce; [reflexivity |].
  rewrite mine_loop_step, H. apply IH.
Qed.

End Search.

(** ** Shape of a checksum and of its hexadecimal rendering *)

Lemma length_be_bytes (n : nat) (x : Z) : List.length (sha256.be_bytes n x) = n.
Proof. induction n as [| n IH]; simpl; [reflexivity | now rewrite IH]. Qed.

Lemma land_255_byte (x : Z) : is_byte (Z.land x 0xff).
Proof.
  unfold is_byte. change 0xff with (Z.ones 8).
  rewrite Z.land_ones by lia. apply Z.mod_pos_bound. lia.
Qed.

Lemma Forall_be_bytes (n : nat) (x : Z) : Forall is_byte (sha256.be_bytes n x).
Proof.
  induction n as [| n IH]; simpl; constructor; [apply land_255_byte | exact IH].
Qed.

Lemma length_Sum256 (msg : list Z) : List.length (sha256.Sum256 msg) = 32%nat.
Proof.
  unfold sha256.Sum256, sha256.digest_bytes.
  rewrite !length_app, !length_be_bytes. reflexivity.
Qed.

Lemma Forall_Sum256 (msg : list Z) : Forall is_byte (sha256.Sum256 msg).
Proof.
  unfold sha256.Sum256, sha256.digest_bytes.
  repeat (apply Forall_app; split); apply Forall_be_bytes.
Qed.

Lemma hexchar_lower (i : Z) : 0 <= i < 16 -> is_lower_hex (hex.hexchar i) = true.
Proof.
  intros H.
  assert (T : forallb (fun k => is_lower_hex (hex.hexchar (Z.of_nat k))) (seq 0 16) = true)
    by reflexivity.
  rewrite forallb_forall in T.
  specialize (T (Z.to_nat i)). rewrite Z2Nat.id in T by lia.
  apply T, in_seq. lia.
Qed.

Lemma high_nibble (v : Z) : is_byte v -> 0 <= Z.shiftr v 4 < 16.
Proof.
  unfold is_byte. intros H. rewrite Z.shiftr_div_pow2 by lia.
  change (2 ^ 4) with 16. split.
  - apply Z.div_pos; lia.
  - apply Z.div_lt_upper_bound; lia.
Qed.

Lemma low_nibble (v : Z) : 0 <= Z.land v 0x0f < 16.
Proof.
  change 0x0f with (Z.ones 4). rewrite Z.land_ones by lia.
  apply Z.mod_pos_bound. lia.
Qed.

Lemma length_EncodeToString (src : list Z) :
  String.length (hex.EncodeToString src) = (2 * List.length src)%nat.
Proof. induction src as [| v src IH]; simpl; [reflexivity | rewrite IH; lia]. Qed.

Lemma EncodeToString_lower (src : list Z) :
  Forall is_byte src ->
  forallb is_lower_hex (list_ascii_of_string (hex.EncodeToString src)) = true.
Proof.
  induction 1 as [| v src Hv _ IH]; [reflexivity |].
  cbn [hex.EncodeToString list_ascii_of_string forallb].
  rewrite (hexchar_lower _ (high_nibble v Hv)), (hexchar_lower _ (low_nibble v)), IH.
  reflexivity.
Qed.

Lemma hexchar_value (i : Z) : 0 <= i < 16 -> hex_digit_value (hex.hexchar i) = Some i.
Proof.
  intros H.
  assert (T : forallb (fun k => match hex_digit_value (hex.hexchar (Z.of_nat k)) with
                                | Some v => v =? Z.of_nat k
                                | None => false
                                end) (seq 0 16) = true) by reflexivity.
  rewrite forallb_forall in T.
  specialize (T (Z.to_nat i)). rewrite Z2Nat.id in T by lia.
  destruct (hex_digit_value (hex.hexchar i)) as [v |].
  - f_equal. apply Z.eqb_eq, T, in_seq. lia.
  - discriminate T. apply in_seq. lia.
Qed.

(** The text [EncodeToString] writes reads back as the bytes it was given. *)
Lemma EncodeToString_decodes (src : list Z) :
  Forall is_byte src -> hex_decode (hex.EncodeToString src) = Some src.
Proof.
  induction 1 as [| v src Hv _ IH]; [reflexivity |].
  cbn [hex.EncodeToString hex_decode].
  rewrite (hexchar_value _ (high_nibble v Hv)), (hexchar_value _ (low_nibble v)), IH.
  do 2 f_equal.
  rewrite Z.shiftr_div_pow2 by lia. change 0x0f with (Z.ones 4).
  rewrite Z.land_ones by lia. change (2 ^ 4) with 16.
  pose proof (Z.div_mod v 16 ltac:(lia)). lia.
Qed.

(** Every digest is a string of sixty-four lowercase hexadecimal digits. *)
Lemma calculateHash_shape (timestamp : Z) (data prevHash : string) (nonce : Z) :
  is_digest_string (calculateHash timestamp data prevHash nonce) = true.
Proof.
  unfold is_digest_string, calculateHash, sha256.Sum. cbn [app].
  rewrite length_EncodeToString, length_Sum256.
  rewrite EncodeToString_lower by apply Forall_Sum256. reflexivity.
Qed.

Lemma length_calculateHash (timestamp : Z) (data prevHash : string) (nonce : Z) :
  String.length (calculateHash timestamp data prevHash nonce) = 64%nat.
Proof.
  pose proof (calculateHash_shape timestamp data prevHash nonce) as H.
  unfold is_digest_string in H. apply andb_true_iff in H.
  now apply Nat.eqb_eq.
Qed.

(** No digest meets a difficulty above sixty-four. *)
Lemma meets_above_64 (d : Z) (timestamp : Z) (data prevHash : string) (nonce : Z) :
  64 < d -> meets d (calculateHash timestamp data prevHash nonce) = false.
Proof.
  intros H. unfold meets. apply Z.leb_gt.
  pose proof (leading_zeros_le_length (calculateHash timestamp data prevHash nonce)) as L.
  rewrite length_calculateHash in L. lia.
Qed.

(** ** [FormatInt] prints the standard decimal numeral *)

Section Decimal.

Import Decimal.
Import DecimalPos.Unsigned.

Ltac digit_cases k :=
  assert (k = 0 \/ k = 1 \/ k = 2 \/ k = 3 \/ k = 4 \/ k = 5
          \/ k = 6 \/ k = 7 \/ k = 8 \/ k = 9) as Hcases by lia;
  repeat (destruct Hcases as [-> | Hcases]); [.. | subst k].

Lemma string_of_udigit (k : Z) (d : uint) :
  0 <= k < 10 ->
  DecimalString.NilEmpty.string_of_uint (udigit k d)
  = String (strconv.digit k) (DecimalString.NilEmpty.string_of_uint d).
Proof. intros H. digit_cases k; reflexivity. Qed.

Lemma usize_udigit (k : Z) (d : uint) : usize (udigit k d) = N.succ (usize d).
Proof.
  unfold udigit. destruct k as [| p | p]; try reflexivity.
  repeat (match goal with
          | |- context [match ?q with xI _ => _ | xO _ => _ | xH => _ end] => destruct q
          end; try reflexivity).
Qed.

Lemma value_udigit (k : Z) (d : uint) :
  0 <= k < 10 -> numeral_value (udigit k d) = (numeral_value d + Z.to_N k * 10 ^ usize d)%N.
Proof.
  intros H. unfold numeral_value.
  digit_cases k; cbn [udigit]; unfold rev; cbn [revapp];
    rewrite of_lu_revapp; cbn [of_lu]; fold (rev d);
    change (Z.to_N 0) with 0%N; lia.
Qed.

Lemma udigit_nonzero (k : Z) (d : uint) :
  0 < k < 10 -> nzhead (udigit k d) = udigit k d.
Proof. intros H. digit_cases k; try lia; reflexivity. Qed.

Lemma string_of_formatBits (fuel : nat) (u : Z) (a : uint) :
  0 <= u ->
  DecimalString.NilEmpty.string_of_uint (formatBits_uint fuel u a)
  = strconv.formatBits fuel u (DecimalString.NilEmpty.string_of_uint a).
Proof.
  revert u a. induction fuel as [| fuel IH]; intros u a H; [reflexivity |].
  cbn [formatBits_uint strconv.formatBits].
  destruct (Z.leb_spec 10 u) as [L | L].
  - rewrite IH by (apply Z.div_pos; lia).
    rewrite string_of_udigit by (apply Z.mod_pos_bound; lia). reflexivity.
  - apply string_of_udigit. lia.
Qed.

(** With fuel for every bit of [u] the loop ends by itself. *)
Lemma value_formatBits (fuel : nat) (u : Z) (a : uint) :
  fuel <> O -> 0 <= u < 2 ^ Z.of_nat fuel ->
  numeral_value (formatBits_uint fuel u a) = (numeral_value a + Z.to_N u * 10 ^ usize a)%N.
Proof.
  revert u a. induction fuel as [| fuel IH]; intros u a F H; [contradiction |].
  cbn [formatBits_uint].
  destruct (Z.leb_spec 10 u) as [L | L]; [| apply value_udigit; lia].
  assert (Q : 1 <= u / 10) by (apply Z.div_le_lower_bound; lia).
  assert (R : 0 <= u mod 10 < 10) by (apply Z.mod_pos_bound; lia).
  assert (B : u / 10 < 2 ^ Z.of_nat fuel).
  { apply Z.div_lt_upper_bound; [lia |].
    rewrite Nat2Z.inj_succ, Z.pow_succ_r in H by lia. lia. }
  rewrite IH.
  - rewrite value_udigit, usize_udigit, N.pow_succ_r' by lia.
    rewrite (Z.div_mod u 10) at 3 by lia.
    rewrite Z2N.inj_add, Z2N.inj_mul by lia.
    change (Z.to_N 10) with 10%N. lia.
  - intros ->. simpl in B. lia.
  - lia.
Qed.

Lemma nzhead_formatBits (fuel : nat) (u : Z) (a : uint) :
  fuel <> O -> 0 < u < 2 ^ Z.of_nat fuel ->
  nzhead (formatBits_uint fuel u a) = formatBits_uint fuel u a.
Proof.
  revert u a. induction fuel as [| fuel IH]; intros u a F H; [contradiction |].
  cbn [formatBits_uint].
  destruct (Z.leb_spec 10 u) as [L | L]; [| apply udigit_nonzero; lia].
  assert (Q : 1 <= u / 10) by (apply Z.div_le_lower_bound; lia).
  assert (B : u / 10 < 2 ^ Z.of_nat fuel).
  { apply Z.div_lt_upper_bound; [lia |].
    rewrite Nat2Z.inj_succ, Z.pow_succ_r in H by lia. lia. }
  apply IH; [intros ->; simpl in B |]; lia.
Qed.

Lemma enough_fuel (u : Z) : 0 <= u -> u < 2 ^ Z.of_nat (S (Z.to_nat (Z.log2 u))).
Proof.
  intros H. rewrite Nat2Z.inj_succ, Z2Nat.id by apply Z.log2_nonneg.
  destruct (Z.eq_dec u 0) as [-> | N]; [reflexivity |].
  apply Z.log2_spec. lia.
Qed.

(** The numeral built by the loop is the standard numeral of [u]. *)
Lemma to_uint_formatBits (u : Z) :
  0 <= u ->
  N.to_uint (Z.to_N u) = formatBits_uint (S (Z.to_nat (Z.log2 u))) u Nil.
Proof.
  intros H. set (d := formatBits_uint _ u Nil).
  assert (V : Pos.of_uint d = Z.to_N u).
  { rewrite of_uint_alt. fold (numeral_value d). unfold d.
    rewrite value_formatBits;
      [| discriminate | split; [lia | apply enough_fuel; lia]].
    unfold numeral_value. cbn. lia. }
  rewrite <- V, to_of.
  destruct (Z.eq_dec u 0) as [-> | N]; [reflexivity |].
  assert (Z : nzhead d = d).
  { apply nzhead_formatBits; [discriminate |]. split; [lia | apply enough_fuel; lia]. }
  rewrite DecimalFacts.unorm_nzhead; [exact Z |].
  rewrite Z. intros E. rewrite E in V. cbn in V. lia.
Qed.

Lemma formatBits_nonnil (u : Z) :
  0 < u -> formatBits_uint (S (Z.to_nat (Z.log2 u))) u Nil <> Nil.
Proof.
  intros H E. pose proof (to_uint_formatBits u ltac:(lia)) as T. rewrite E in T.
  destruct (Z.to_N u) as [| p] eqn:P; [lia |].
  exact (to_uint_nonnil p T).
Qed.

Lemma string_of_positive (p : positive) :
  DecimalString.NilZero.string_of_uint (Pos.to_uint p)
  = strconv.formatBits (S (Z.to_nat (Z.log2 (Z.pos p)))) (Z.pos p) "".
Proof.
  pose proof (to_uint_formatBits (Z.pos p) ltac:(lia)) as T.
  cbn [Z.to_N N.to_uint] in T. rewrite T.
  pose proof (formatBits_nonnil (Z.pos p) ltac:(lia)) as N.
  rewrite <- (string_of_formatBits _ _ Nil) by lia.
  destruct (formatBits_uint _ _ Nil); [contradiction | reflexivity ..].
Qed.

Theorem FormatInt_decimal (z : Z) : strconv.FormatInt z = decimal_text z.
Proof.
  unfold decimal_text, strconv.FormatInt.
  destruct z as [| p | p]; [reflexivity | |];
    cbn [Z.to_int DecimalString.NilZero.string_of_int Z.abs Z.ltb Z.compare];
    now rewrite string_of_positive.
Qed.

End Decimal.

(** ** The operations of the program *)

Lemma HasPrefix_empty (s : string) : strings.HasPrefix s "" = true.
Proof. now rewrite HasPrefix_prefix, prefix_nil. Qed.

Lemma mineBlock_Done (fuel : nat) (d timestamp : Z) (data prevHash : string)
      (r : Z * string) :
  mineBlock fuel d timestamp data prevHash = Done r <->
  0 <= d <= max_alloc
  /\ mine_loop fuel (strings.repeat_string "0" (Z.to_nat d)) timestamp data prevHash 0
     = Done r.
Proof.
  unfold mineBlock. rewrite bind_Done. split.
  - intros (target & T & H). apply Repeat_Done in T. destruct T as [D ->]. now split.
  - intros [D H]. eexists. split; [| exact H]. now apply Repeat_Done.
Qed.

Lemma mineBlock_no_panic (fuel : nat) (d timestamp : Z) (data prevHash : string) :
  0 <= d <= max_alloc -> panics (mineBlock fuel d timestamp data prevHash) = false.
Proof.
  intros D. unfold mineBlock. apply panics_bind.
  - now apply Repeat_no_panic.
  - intros target _. apply mine_loop_no_panic.
Qed.

(** What [mineBlock] returns is a digest of the content that meets the
    difficulty. *)
Lemma mineBlock_sound (fuel : nat) (d timestamp : Z) (data prevHash : string)
      (n : Z) (h : string) :
  mineBlock fuel d timestamp data prevHash = Done (n, h) ->
  0 <= d <= max_alloc /\ h = calculateHash timestamp data prevHash n /\ meets d h = true.
Proof.
  intros H. apply mineBlock_Done in H. destruct H as [D H]. split; [exact D |].
  change 0 with (nonce_at 0) in H. apply mine_loop_Done in H.
  destruct H as (k & _ & _ & -> & Hk & _). split; [reflexivity |].
  rewrite <- Hk. symmetry. apply HasPrefix_meets. now apply Repeat_Done.
Qed.

Lemma mineBlock_mono (fuel fuel' : nat) (d timestamp : Z) (data prevHash : string)
      (r : Z * string) :
  (fuel <= fuel')%nat ->
  mineBlock fuel d timestamp data prevHash = Done r ->
  mineBlock fuel' d timestamp data prevHash = Done r.
Proof.
  intros L H. apply mineBlock_Done in H. destruct H as [D H].
  apply mineBlock_Done. split; [exact D |]. now apply (mine_loop_mono _ _ _ _ fuel).
Qed.

Lemma mineBlock_functional (fuel fuel' : nat) (d timestamp : Z) (data prevHash : string)
      (r r' : Z * string) :
  mineBlock fuel d timestamp data prevHash = Done r ->
  mineBlock fuel' d timestamp data prevHash = Done r' -> r = r'.
Proof.
  intros H H'.
  apply (mineBlock_mono _ (Nat.max fuel fuel')) in H; [| apply Nat.le_max_l].
  apply (mineBlock_mono _ (Nat.max fuel fuel')) in H'; [| apply Nat.le_max_r].
  congruence.
Qed.

(** The only step of [mineBlock] that can panic is the call of [Repeat]. *)
Lemma mineBlock_panics (fuel : nat) (d timestamp : Z) (data prevHash : string) :
  panics (mineBlock fuel d timestamp data prevHash) = panics (strings.Repeat "0" d).
Proof.
  unfold mineBlock.
  destruct (strings.Repeat "0" d) as [target | msg |]; cbn [bind panics];
    [apply mine_loop_no_panic | reflexivity | reflexivity].
Qed.

(** Above difficulty 64 the search does not return. *)
Lemma mineBlock_above_64_never_Done (fuel : nat) (d timestamp : Z)
      (data prevHash : string) (r : Z * string) :
  64 < d -> mineBlock fuel d timestamp data prevHash <> Done r.
Proof.
  intros D H. destruct r as [n h].
  apply mineBlock_sound in H. destruct H as (_ & -> & M).
  rewrite meets_above_64 in M by exact D. discriminate.
Qed.

(** Above difficulty 64 the search goes on for ever, once the target string
    has been built. *)
Lemma mineBlock_above_64 (fuel : nat) (d timestamp : Z) (data prevHash : string) :
  64 < d -> panics (strings.Repeat "0" d) = false ->
  mineBlock fuel d timestamp data prevHash = Timeout.
Proof.
  intros D P. apply Repeat_panics in P. unfold mineBlock. rewrite P. cbn [bind].
  apply mine_loop_Timeout. intros n. unfold hit.
  rewrite (HasPrefix_meets d) by exact P. now apply meets_above_64.
Qed.

(** At difficulty 0 the first iteration returns. *)
Lemma mineBlock_at_zero (fuel : nat) (timestamp : Z) (data prevHash : string) :
  mineBlock (S fuel) 0 timestamp data prevHash
  = Done (0, calculateHash timestamp data prevHash 0).
Proof.
  apply mineBlock_Done. split; [unfold max_alloc; lia |].
  cbn [Z.to_nat strings.repeat_string mine_loop].
  now rewrite HasPrefix_empty.
Qed.

Lemma NewBlock_Done (fuel : nat) (now : Z) (data prevHash : string) (d : Z) (b : Block) :
  NewBlock fuel now data prevHash d = Done b <->
  exists n h, mineBlock fuel d now data prevHash = Done (n, h)
              /\ b = {| Timestamp := now; Data := data; PrevBlockHash := prevHash;
                        Hash := h; Nonce := n |}.
Proof.
  unfold NewBlock. rewrite bind_Done. split.
  - intros ([n h] & M & [= <-]). now exists n, h.
  - intros (n & h & M & ->). now exists (n, h).
Qed.

Lemma NewBlock_no_panic (fuel : nat) (now : Z) (data prevHash : string) (d : Z) :
  0 <= d <= max_alloc -> panics (NewBlock fuel now data prevHash d) = false.
Proof.
  intros D. unfold NewBlock. apply panics_bind.
  - now apply mineBlock_no_panic.
  - intros [n h] _. reflexivity.
Qed.

Lemma NewBlockchain_Done (fuel : nat) (now d : Z) (bc : Blockchain) :
  NewBlockchain fuel now d = Done bc <->
  exists n h, mineBlock fuel d now "Genesis Block" "" = Done (n, h)
              /\ bc = {| Blocks := [ {| Timestamp := now; Data := "Genesis Block";
                                        PrevBlockHash := ""; Hash := h; Nonce := n |} ];
                         Difficulty := d |}.
Proof.
  unfold NewBlockchain, NewGenesisBlock. rewrite bind_Done. split.
  - intros (g & G & [= <-]). apply NewBlock_Done in G.
    destruct G as (n & h & M & ->). now exists n, h.
  - intros (n & h & M & ->). eexists. split; [| reflexivity].
    apply NewBlock_Done. now exists n, h.
Qed.

(** Indexing a slice at [len - 1]. *)
Lemma index_last {A : Type} (s : list A) (x : A) :
  index s (Z.of_nat (List.length s) - 1) = Done x <->
  nth_error s (Nat.pred (List.length s)) = Some x.
Proof.
  unfold index. destruct s as [| a s].
  - simpl. split; discriminate.
  - replace (Z.to_nat (Z.of_nat (List.length (a :: s)) - 1))
      with (Nat.pred (List.length (a :: s))) by (cbn [List.length Nat.pred]; lia).
    destruct (Z.ltb_spec (Z.of_nat (List.length (a :: s)) - 1) 0) as [L | L];
      [cbn [List.length] in L; lia |].
    destruct (Z.leb_spec (Z.of_nat (List.length (a :: s)))
                (Z.of_nat (List.length (a :: s)) - 1)) as [L' | L']; [lia |].
    cbn [orb].
    destruct (nth_error (a :: s) (Nat.pred (List.length (a :: s)))) as [y |] eqn:E.
    + split; congruence.
    + split; discriminate.
Qed.

Lemma index_last_nonempty {A : Type} (s : list A) :
  s <> [] -> exists x, index s (Z.of_nat (List.length s) - 1) = Done x.
Proof.
  intros N.
  destruct (nth_error s (Nat.pred (List.length s))) as [x |] eqn:E.
  - exists x. now apply index_last.
  - apply nth_error_None in E. destruct s; [contradiction | simpl in E; lia].
Qed.

Lemma AddBlock_Done (fuel : nat) (now : Z) (bc : Blockchain) (data : string)
      (bc' : Blockchain) :
  AddBlock fuel now bc data = Done bc' <->
  exists prevBlock n h,
    nth_error (Blocks bc) (Nat.pred (List.length (Blocks bc))) = Some prevBlock
    /\ mineBlock fuel (Difficulty bc) now data (Hash prevBlock) = Done (n, h)
    /\ bc' = {| Blocks := Blocks bc ++ [ {| Timestamp := now; Data := data;
                                            PrevBlockHash := Hash prevBlock;
                                            Hash := h; Nonce := n |} ];
                Difficulty := Difficulty bc |}.
Proof.
  unfold AddBlock. rewrite bind_Done. split.
  - intros (prevBlock & I & H). apply index_last in I.
    apply bind_Done in H. destruct H as (nb & B & [= <-]).
    apply NewBlock_Done in B. destruct B as (n & h & M & ->).
    now exists prevBlock, n, h.
  - intros (prevBlock & n & h & I & M & ->). exists prevBlock.
    split; [now apply index_last |].
    apply bind_Done. eexists. split; [| reflexivity].
    apply NewBlock_Done. now exists n, h.
Qed.

(** ** Invariants of the chains the program produces *)

Lemma produced_nonempty (bc : Blockchain) : produced bc -> Blocks bc <> [].
Proof.
  induction 1 as [fuel now d bc C | fuel now data bc bc' _ _ A].
  - apply NewBlockchain_Done in C. destruct C as (n & h & _ & ->). discriminate.
  - apply AddBlock_Done in A. destruct A as (p & n & h & _ & _ & ->).
    cbn [Blocks]. intros E. now apply app_eq_nil in E.
Qed.

Lemma produced_difficulty (bc : Blockchain) :
  produced bc -> 0 <= Difficulty bc <= max_alloc.
Proof.
  induction 1 as [fuel now d bc C | fuel now data bc bc' _ IH A].
  - apply NewBlockchain_Done in C. destruct C as (n & h & M & ->).
    now apply mineBlock_sound in M.
  - apply AddBlock_Done in A. destruct A as (p & n & h & _ & _ & ->). exact IH.
Qed.

(** Every block was sealed at the difficulty of its chain. *)
Lemma produced_sealed (bc : Blockchain) (b : Block) :
  produced bc -> In b (Blocks bc) ->
  Hash b = calculateHash (Timestamp b) (Data b) (PrevBlockHash b) (Nonce b)
  /\ meets (Difficulty bc) (Hash b) = true.
Proof.
  intros P. revert b.
  induction P as [fuel now d bc C | fuel now data bc bc' _ IH A]; intros b I.
  - apply NewBlockchain_Done in C. destruct C as (n & h & M & ->).
    destruct I as [<- | []]. now apply mineBlock_sound in M.
  - apply AddBlock_Done in A. destruct A as (p & n & h & _ & M & ->).
    cbn [Blocks Difficulty] in *. apply in_app_or in I.
    destruct I as [I | [<- | []]]; [now apply IH |].
    now apply mineBlock_sound in M.
Qed.

Lemma produced_genesis (bc : Blockchain) :
  produced bc ->
  exists g, nth_error (Blocks bc) 0 = Some g
            /\ PrevBlockHash g = "" /\ Data g = "Genesis Block".
Proof.
  induction 1 as [fuel now d bc C | fuel now data bc bc' _ IH A].
  - apply NewBlockchain_Done in C. destruct C as (n & h & _ & ->).
    eexists. split; [reflexivity | split; reflexivity].
  - apply AddBlock_Done in A. destruct A as (p & n & h & _ & _ & ->).
    destruct IH as (g & G & S). exists g. split; [| exact S].
    cbn [Blocks]. destruct (Blocks bc); [discriminate | exact G].
Qed.

Lemma produced_linked (bc : Blockchain) (i : nat) (b b' : Block) :
  produced bc ->
  nth_error (Blocks bc) i = Some b -> nth_error (Blocks bc) (S i) = Some b' ->
  PrevBlockHash b' = Hash b.
Proof.
  intros P. revert i b b'.
  induction P as [fuel now d bc C | fuel now data bc bc' _ IH A]; intros i b b' Hb Hb'.
  - apply NewBlockchain_Done in C. destruct C as (n & h & _ & ->).
    cbn in Hb'. destruct i; discriminate.
  - apply AddBlock_Done in A. destruct A as (p & n & h & L & _ & ->).
    cbn [Blocks] in *.
    destruct (Nat.lt_ge_cases (S i) (List.length (Blocks bc))) as [Lt | Ge].
    + rewrite nth_error_app1 in Hb, Hb' by lia. now apply (IH i).
    + assert (Some p = Some b /\ S i = List.length (Blocks bc)) as [E1 E2].
      { assert (S i < List.length (Blocks bc ++ [ {| Timestamp := now; Data := data;
                  PrevBlockHash := Hash p; Hash := h; Nonce := n |} ]))%nat as B
          by (apply nth_error_Some; congruence).
        rewrite length_app in B. cbn in B.
        assert (S i = List.length (Blocks bc)) as E by lia.
        split; [| exact E].
        rewrite nth_error_app1 in Hb by lia.
        rewrite <- E in L. cbn in L. congruence. }
      rewrite nth_error_app2 in Hb' by lia.
      rewrite E2, Nat.sub_diag in Hb'. cbn in Hb'.
      injection Hb' as <-. injection E1 as ->. reflexivity.
Qed.

(** ** The demonstration run *)

Lemma demo_created : NewBlockchain 3 1700000014 1 = Done demo_chain0.
Proof. vm_compute. reflexivity. Qed.

Lemma demo_appended1 :
  AddBlock 2 1700000027 demo_chain0 "Send 1 BTC to Alex" = Done demo_chain1.
Proof. vm_compute. reflexivity. Qed.

Lemma demo_appended2 :
  AddBlock 4 1700000031 demo_chain1 "Send 2 BTC to Ben" = Done demo_chain2.
Proof. vm_compute. reflexivity. Qed.

Lemma demo_produced : produced demo_chain2.
Proof.
  eapply produced_append; [| exact demo_appended2].
  eapply produced_append; [| exact demo_appended1].
  eapply produced_create. exact demo_created.
Qed.

Lemma demo_sealed :
  mineBlock 4 1 1700000031 "Send 2 BTC to Ben" (Hash demo_block1)
  = Done (Nonce demo_block2, Hash demo_block2).
Proof. vm_compute. reflexivity. Qed.

(** * The properties of the specification *)

(** C1 (recomputability).  In every chain obtained from [NewBlockchain] by
    any sequence of [AddBlock] calls, the stored hash of every block is the
    digest recomputed from the block's stored timestamp, data, previous hash
    and nonce. *)
Theorem hash_recomputable (bc : Blockchain) (b : Block) :
  produced bc -> In b (Blocks bc) ->
  Hash b = calculateHash (Timestamp b) (Data b) (PrevBlockHash b) (Nonce b).
Proof.
  intros P I. exact (proj1 (produced_sealed bc b P I)).
Qed.

Lemma hash_recomputable_witness :
  produced demo_chain2 /\ In demo_block2 (Blocks demo_chain2)
  /\ Hash demo_block2
     = calculateHash (Timestamp demo_block2) (Data demo_block2)
                     (PrevBlockHash demo_block2) (Nonce demo_block2).
Proof.
  assert (I : In demo_block2 (Blocks demo_chain2)) by (simpl; auto).
  exact (conj demo_produced
           (conj I (hash_recomputable demo_chain2 demo_block2 demo_produced I))).
Defined.

(** C2 (proof-of-work validity).  In a produced chain the difficulty [d] is
    non-negative and the stored hash of every block, the genesis block
    included, starts with at least [d] characters ['0']. *)
Theorem proof_of_work_valid (bc : Blockchain) (b : Block) :
  produced bc -> In b (Blocks bc) ->
  0 <= Difficulty bc <= Z.of_nat (leading_zeros (Hash b)).
Proof.
  intros P I. split.
  - apply (produced_difficulty bc P).
  - apply Z.leb_le. exact (proj2 (produced_sealed bc b P I)).
Qed.

Lemma proof_of_work_valid_witness :
  produced demo_chain2 /\ In demo_genesis (Blocks demo_chain2)
  /\ 0 <= Difficulty demo_chain2 <= Z.of_nat (leading_zeros (Hash demo_genesis)).
Proof.
  assert (I : In demo_genesis (Blocks demo_chain2)) by (simpl; auto).
  exact (conj demo_produced
           (conj I (proof_of_work_valid demo_chain2 demo_genesis demo_produced I))).
Defined.

(** C3 (linkage).  In a produced chain block 0 has the empty string as its
    previous hash, and the previous hash of block [i + 1] is the hash of
    block [i]. *)
Theorem chain_linkage (bc : Blockchain) :
  produced bc ->
  (exists g, nth_error (Blocks bc) 0 = Some g /\ PrevBlockHash g = "")
  /\ (forall i b b', nth_error (Blocks bc) i = Some b ->
                     nth_error (Blocks bc) (S i) = Some b' ->
                     PrevBlockHash b' = Hash b).
Proof.
  intros P. split.
  - destruct (produced_genesis bc P) as (g & G & S & _). now exists g.
  - intros i b b'. now apply produced_linked.
Qed.

Lemma chain_linkage_witness :
  produced demo_chain2
  /\ (exists g, nth_error (Blocks demo_chain2) 0 = Some g /\ PrevBlockHash g = "")
  /\ PrevBlockHash demo_block2 = Hash demo_block1.
Proof.
  split; [exact demo_produced |].
  destruct (chain_linkage demo_chain2 demo_produced) as [G L].
  split; [exact G |].
  exact (L 1%nat demo_block1 demo_block2 eq_refl eq_refl).
Defined.

(** X15 (the nonce a search returns).  If [mineBlock] returns [(n, h)] at
    difficulty [d], then [d] is non-negative, [h] is the digest of the
    content at nonce [n] and has [d] leading zeros, and every call with the
    same arguments that returns, returns the same pair.  The search tries
    the nonces 0, 1, 2, ... in turn: [n] is non-negative whenever the search
    ended before the 64-bit counter wrapped (within [2^63] iterations), and
    a non-negative [n] is the smallest non-negative integer whose digest has
    [d] leading zeros. *)
Theorem mineBlock_least_nonce (fuel : nat) (d timestamp : Z) (data prevHash : string)
        (n : Z) (h : string) :
  mineBlock fuel d timestamp data prevHash = Done (n, h) ->
  0 <= d
  /\ h = calculateHash timestamp data prevHash n
  /\ d <= Z.of_nat (leading_zeros h)
  /\ (Z.of_nat fuel <= 2 ^ 63 -> 0 <= n)
  /\ (0 <= n ->
      forall m, 0 <= m < n ->
                Z.of_nat (leading_zeros (calculateHash timestamp data prevHash m)) < d)
  /\ (forall fuel', (fuel <= fuel')%nat ->
                    mineBlock fuel' d timestamp data prevHash = Done (n, h))
  /\ (forall fuel' r, mineBlock fuel' d timestamp data prevHash = Done r -> r = (n, h)).
Proof.
  intros H.
  destruct (mineBlock_sound _ _ _ _ _ _ _ H) as ([D0 D1] & Hh & Hm).
  pose proof (proj1 (mineBlock_Done _ _ _ _ _ _) H) as [_ L].
  assert (T : strings.Repeat "0" d = Done (strings.repeat_string "0" (Z.to_nat d)))
    by now apply Repeat_Done.
  split; [exact D0 |]. split; [exact Hh |]. split; [now apply Z.leb_le |].
  split; [| split; [| split]].
  - intros F. exact (mine_loop_nonneg _ _ _ _ _ _ _ F L).
  - intros N m M. apply Z.leb_gt. fold (meets d (calculateHash timestamp data prevHash m)).
    rewrite <- (HasPrefix_meets d _ _ T).
    exact (mine_loop_least _ _ _ _ _ _ _ L N m M).
  - intros fuel' F. exact (mineBlock_mono _ _ _ _ _ _ _ F H).
  - intros fuel' r R. exact (mineBlock_functional _ _ _ _ _ _ _ _ R H).
Qed.

Lemma mineBlock_least_nonce_witness :
  mineBlock 4 1 1700000031 "Send 2 BTC to Ben" (Hash demo_block1)
  = Done (3, Hash demo_block2)
  /\ (forall m, 0 <= m < 3 ->
        Z.of_nat (leading_zeros
                    (calculateHash 1700000031 "Send 2 BTC to Ben" (Hash demo_block1) m))
        < 1)
  /\ mineBlock 9 1 1700000031 "Send 2 BTC to Ben" (Hash demo_block1)
     = Done (3, Hash demo_block2).
Proof.
  pose proof (mineBlock_least_nonce _ _ _ _ _ _ _ demo_sealed)
    as (_ & _ & _ & NonNeg & Least & More & _).
  split; [exact demo_sealed |]. split.
  - apply Least. apply NonNeg. cbn. lia.
  - apply More. lia.
Defined.

(** C5 (canonical encoding).  The digest is the SHA-256 checksum, written
    in lowercase hexadecimal, of the decimal text of the timestamp followed
    by the data, the previous hash and the decimal text of the nonce; read
    back as hexadecimal, the digest is that checksum. *)
Theorem calculateHash_canonical (timestamp : Z) (data prevHash : string) (nonce : Z) :
  calculateHash timestamp data prevHash nonce = spec_digest timestamp data prevHash nonce
  /\ hex_decode (calculateHash timestamp data prevHash nonce)
     = Some (sha256.Sum256
               (bytes_of_string
                  (decimal_text timestamp ++ data ++ prevHash ++ decimal_text nonce))).
Proof.
  assert (E : calculateHash timestamp data prevHash nonce
              = spec_digest timestamp data prevHash nonce).
  { unfold calculateHash, spec_digest, strconv.Itoa, sha256.Sum, sha256.Write, sha256.New.
    cbn [sha256.written app]. now rewrite !FormatInt_decimal. }
  split; [exact E |].
  rewrite E. unfold spec_digest. apply EncodeToString_decodes, Forall_Sum256.
Qed.

(** C6 (append-only growth).  A call of [AddBlock] returns as soon as the
    search for the nonce of the new block does, and what it leaves is the
    old sequence of blocks followed by one new block: the length grows by
    exactly one, every block that was there is still there, at its index and
    with all its fields, and the difficulty is the same. *)
Theorem AddBlock_append_only (fuel : nat) (now : Z) (bc : Blockchain) (data : string) :
  (forall bc',
      AddBlock fuel now bc data = Done bc' ->
      (exists newBlock, Blocks bc' = (Blocks bc ++ [newBlock])%list)
      /\ List.length (Blocks bc') = S (List.length (Blocks bc))
      /\ (forall i b, nth_error (Blocks bc) i = Some b -> nth_error (Blocks bc') i = Some b)
      /\ Difficulty bc' = Difficulty bc)
  /\ (forall prevBlock n h,
         nth_error (Blocks bc) (Nat.pred (List.length (Blocks bc))) = Some prevBlock ->
         mineBlock fuel (Difficulty bc) now data (Hash prevBlock) = Done (n, h) ->
         exists bc', AddBlock fuel now bc data = Done bc').
Proof.
  split.
  - intros bc' A. apply AddBlock_Done in A. destruct A as (p & n & h & _ & _ & ->).
    cbn [Blocks Difficulty]. split; [eexists; reflexivity |]. split; [| split].
    + rewrite length_app. cbn. lia.
    + intros i b Hb. rewrite nth_error_app1; [exact Hb |].
      apply nth_error_Some. congruence.
    + reflexivity.
  - intros p n h L M. eexists. apply AddBlock_Done. now exists p, n, h.
Qed.

Lemma AddBlock_append_only_witness :
  AddBlock 4 1700000031 demo_chain1 "Send 2 BTC to Ben" = Done demo_chain2
  /\ List.length (Blocks demo_chain2) = S (List.length (Blocks demo_chain1))
  /\ nth_error (Blocks demo_chain2) 1 = Some demo_block1
  /\ Difficulty demo_chain2 = Difficulty demo_chain1
  /\ exists bc', AddBlock 4 1700000031 demo_chain1 "Send 2 BTC to Ben" = Done bc'.
Proof.
  destruct (AddBlock_append_only 4 1700000031 demo_chain1 "Send 2 BTC to Ben")
    as [Frame Returns].
  destruct (Frame demo_chain2 demo_appended2) as (_ & Len & Old & Dif).
  split; [exact demo_appended2 |]. split; [exact Len |].
  split; [apply Old; reflexivity |]. split; [exact Dif |].
  exact (Returns demo_block1 _ _ eq_refl demo_sealed).
Defined.

(** C7 (creation), as amended.  [NewBlockchain(d)] returns exactly when the
    search for the nonce of the genesis block returns, and then it returns
    the chain of difficulty [d] whose only block carries the clock reading,
    the data "Genesis Block", the empty previous hash and the nonce and
    hash the search found at difficulty [d]; at difficulty 0 it returns
    after one iteration, and above difficulty 64 it never returns. *)
Theorem NewBlockchain_genesis (fuel : nat) (now d : Z) :
  (forall bc,
      NewBlockchain fuel now d = Done bc <->
      exists n h,
        mineBlock fuel d now "Genesis Block" "" = Done (n, h)
        /\ bc = {| Blocks := [ {| Timestamp := now; Data := "Genesis Block";
                                  PrevBlockHash := ""; Hash := h; Nonce := n |} ];
                   Difficulty := d |})
  /\ (forall bc,
         NewBlockchain fuel now d = Done bc ->
         exists g, Blocks bc = [g] /\ Data g = "Genesis Block" /\ PrevBlockHash g = ""
                   /\ Hash g = calculateHash (Timestamp g) (Data g) (PrevBlockHash g) (Nonce g)
                   /\ 0 <= d <= Z.of_nat (leading_zeros (Hash g))
                   /\ Difficulty bc = d)
  /\ (d = 0 -> fuel <> O -> exists bc, NewBlockchain fuel now d = Done bc)
  /\ (64 < d -> forall bc, NewBlockchain fuel now d <> Done bc).
Proof.
  split; [intros bc; apply NewBlockchain_Done |]. split; [| split].
  - intros bc C. apply NewBlockchain_Done in C. destruct C as (n & h & M & ->).
    apply mineBlock_sound in M. destruct M as (D & -> & M).
    eexists. split; [reflexivity |]. cbn [Data PrevBlockHash Hash Timestamp Nonce Difficulty].
    repeat split; try reflexivity; try lia. now apply Z.leb_le.
  - intros -> F. destruct fuel as [| fuel]; [contradiction |].
    eexists. apply NewBlockchain_Done. do 2 eexists. split; [| reflexivity].
    apply mineBlock_at_zero.
  - intros D bc C. apply NewBlockchain_Done in C. destruct C as (n & h & M & _).
    exact (mineBlock_above_64_never_Done _ _ _ _ _ _ D M).
Qed.

Lemma NewBlockchain_genesis_witness :
  NewBlockchain 3 1700000014 1 = Done demo_chain0
  /\ (exists g, Blocks demo_chain0 = [g] /\ Data g = "Genesis Block"
                /\ PrevBlockHash g = ""
                /\ Hash g = calculateHash (Timestamp g) (Data g) (PrevBlockHash g) (Nonce g)
                /\ 0 <= 1 <= Z.of_nat (leading_zeros (Hash g))
                /\ Difficulty demo_chain0 = 1)
  /\ (exists bc, NewBlockchain 1 1700000014 0 = Done bc)
  /\ (forall bc, NewBlockchain 1000 1700000014 65 <> Done bc).
Proof.
  split; [exact demo_created |]. split; [| split].
  - exact (proj1 (proj2 (NewBlockchain_genesis 3 1700000014 1)) demo_chain0 demo_created).
  - apply (NewBlockchain_genesis 1 1700000014 0); [reflexivity | discriminate].
  - apply (NewBlockchain_genesis 1000 1700000014 65). lia.
Defined.

(** C7 as stated fails at difficulty 65: no run of [NewBlockchain(65)],
    however long and whatever the clock shows, returns a chain. *)
Lemma NewBlockchain_65_returns_nothing :
  ~ exists fuel now bc, NewBlockchain fuel now 65 = Done bc.
Proof.
  intros (fuel & now & bc & C). apply NewBlockchain_Done in C.
  destruct C as (n & h & M & _).
  apply (mineBlock_above_64_never_Done fuel 65 now "Genesis Block" "" (n, h));
    [lia | exact M].
Qed.

(** C8 (difficulty 0).  At difficulty 0 [mineBlock] returns in its first
    iteration, with nonce 0 and the digest of the content at nonce 0. *)
Theorem mineBlock_difficulty_zero (fuel : nat) (timestamp : Z) (data prevHash : string) :
  mineBlock (S fuel) 0 timestamp data prevHash
  = Done (0, calculateHash timestamp data prevHash 0).
Proof. apply mineBlock_at_zero. Qed.

(** C9 (no failure mode), as amended.  The one step of [mineBlock] and
    [NewBlockchain] that can fail is the call of [strings.Repeat] that
    builds the target: they panic exactly when it does, and otherwise only
    take time.  It does not panic for a difficulty from 0 to 64, the
    difficulties a digest can meet.  A produced chain is not empty and
    [AddBlock] does not panic on it; and [calculateHash], which has no
    failing step, yields a digest on every input. *)
Theorem no_failure_modes :
  (forall fuel d timestamp data prevHash,
      panics (mineBlock fuel d timestamp data prevHash)
      = panics (strings.Repeat "0" d))
  /\ (forall fuel now d,
         panics (NewBlockchain fuel now d) = panics (strings.Repeat "0" d))
  /\ (forall d, 0 <= d <= 64 -> panics (strings.Repeat "0" d) = false)
  /\ (forall bc,
         produced bc ->
         Blocks bc <> []
         /\ forall fuel now data, panics (AddBlock fuel now bc data) = false)
  /\ (forall timestamp data prevHash nonce,
         is_digest_string (calculateHash timestamp data prevHash nonce) = true).
Proof.
  split; [| split; [| split; [| split]]].
  - intros fuel d timestamp data prevHash. apply mineBlock_panics.
  - intros fuel now d. unfold NewBlockchain, NewGenesisBlock, NewBlock.
    rewrite <- (mineBlock_panics fuel d now "Genesis Block" "").
    destruct (mineBlock fuel d now "Genesis Block" "") as [[n h] | msg |]; reflexivity.
  - intros d D. apply Repeat_no_panic. unfold max_alloc. lia.
  - intros bc P. split; [now apply produced_nonempty |].
    intros fuel now data. unfold AddBlock.
    destruct (index_last_nonempty (Blocks bc) (produced_nonempty bc P)) as (p & ->).
    cbn [bind]. apply panics_bind; [| reflexivity].
    apply NewBlock_no_panic. now apply produced_difficulty.
  - apply calculateHash_shape.
Qed.

Lemma no_failure_modes_witness :
  panics (mineBlock 5 64 1700000014 "Genesis Block" "") = false
  /\ panics (NewBlockchain 5 1700000014 4) = false
  /\ Blocks demo_chain2 <> []
  /\ panics (AddBlock 5 1700000040 demo_chain2 "Send 3 BTC to Cy") = false.
Proof.
  destruct no_failure_modes as (M & C & R & A & _).
  split; [rewrite M; apply R; lia |].
  split; [rewrite C; apply R; lia |].
  destruct (A demo_chain2 demo_produced) as [N Q].
  split; [exact N | apply Q].
Defined.

(** C9 as stated fails at the largest difficulty an [int] holds: the search
    panics while it builds its target, before it computes a digest. *)
Lemma mineBlock_MaxInt_panics :
  mineBlock 1 9223372036854775807 1700000014 "Genesis Block" ""
  = Panic "runtime error: makeslice: len out of range".
Proof. reflexivity. Qed.

(** C10 (shape of a digest).  [calculateHash] always returns sixty-four
    characters, each a lowercase hexadecimal digit; hence in a produced
    chain the stored hash of every block, and the previous hash of every
    block but the first, have this shape. *)
Theorem digest_is_64_lower_hex :
  (forall timestamp data prevHash nonce,
      String.length (calculateHash timestamp data prevHash nonce) = 64%nat
      /\ forall c, In c (list_ascii_of_string (calculateHash timestamp data prevHash nonce)) ->
                   is_lower_hex c = true)
  /\ (forall bc,
         produced bc ->
         forall i b, nth_error (Blocks bc) i = Some b ->
                     is_digest_string (Hash b) = true
                     /\ (i <> O -> is_digest_string (PrevBlockHash b) = true)).
Proof.
  split.
  - intros timestamp data prevHash nonce.
    pose proof (calculateHash_shape timestamp data prevHash nonce) as H.
    unfold is_digest_string in H. apply andb_true_iff in H. destruct H as [L F].
    split; [now apply Nat.eqb_eq | now apply forallb_forall].
  - intros bc P.
    assert (Sh : forall i b, nth_error (Blocks bc) i = Some b ->
                             is_digest_string (Hash b) = true).
    { intros i b Hb.
      rewrite (proj1 (produced_sealed bc b P (nth_error_In _ _ Hb))).
      apply calculateHash_shape. }
    intros i b Hb. split; [now apply (Sh i) |].
    intros N. destruct i as [| j]; [contradiction |].
    destruct (nth_error (Blocks bc) j) as [b0 |] eqn:Hj.
    + rewrite (produced_linked bc j b0 b P Hj Hb). now apply (Sh j).
    + apply nth_error_None in Hj.
      assert (S j < List.length (Blocks bc))%nat by (apply nth_error_Some; congruence).
      lia.
Qed.

Lemma digest_is_64_lower_hex_witness :
  String.length (calculateHash 1700000014 "Genesis Block" "" 2) = 64%nat
  /\ is_digest_string (Hash demo_block2) = true
  /\ is_digest_string (PrevBlockHash demo_block2) = true.
Proof.
  destruct digest_is_64_lower_hex as [D C].
  split; [apply D |].
  destruct (C demo_chain2 demo_produced 2%nat demo_block2 eq_refl) as [H Q].
  split; [exact H | apply Q; discriminate].
Defined.

(** * Further properties of the code *)

(** ** Calls that fail or never return *)

Lemma Repeat_negative (s : string) (count : Z) :
  count < 0 -> strings.Repeat s count = Panic "strings: negative Repeat count".
Proof.
  intros H. unfold strings.Repeat.
  destruct (Z.ltb_spec count 0); [reflexivity | lia].
Qed.

(** X1 (negative difficulty).  With a negative difficulty the search panics
    in [strings.Repeat] before it computes a digest, whatever the content;
    so do [NewBlock] and [NewBlockchain], and so does [AddBlock] on a chain
    that has a block and carries such a difficulty. *)
Theorem negative_difficulty_panics (fuel : nat) (d now : Z) (data prevHash : string) :
  d < 0 ->
  mineBlock fuel d now data prevHash = Panic "strings: negative Repeat count"
  /\ NewBlock fuel now data prevHash d = Panic "strings: negative Repeat count"
  /\ NewBlockchain fuel now d = Panic "strings: negative Repeat count"
  /\ (forall bc, Blocks bc <> [] -> Difficulty bc = d ->
                 AddBlock fuel now bc data = Panic "strings: negative Repeat count").
Proof.
  intros D.
  assert (M : forall data' prev',
             mineBlock fuel d now data' prev' = Panic "strings: negative Repeat count").
  { intros data' prev'. unfold mineBlock. now rewrite Repeat_negative. }
  split; [apply M |]. split; [unfold NewBlock; now rewrite M |].
  split; [unfold NewBlockchain, NewGenesisBlock, NewBlock; now rewrite M |].
  intros bc N <-. unfold AddBlock.
  destruct (index_last_nonempty (Blocks bc) N) as (p & ->).
  cbn [bind]. unfold NewBlock. now rewrite M.
Qed.

Lemma negative_difficulty_panics_witness :
  NewBlockchain 0 1700000014 (-1) = Panic "strings: negative Repeat count"
  /\ AddBlock 5 1700000040 {| Blocks := [demo_genesis]; Difficulty := -3 |} "x"
     = Panic "strings: negative Repeat count".
Proof.
  split.
  - apply (negative_difficulty_panics 0 (-1) 1700000014 "" ""). lia.
  - apply (negative_difficulty_panics 5 (-3) 1700000040 "x" ""); [lia | discriminate | reflexivity].
Defined.



(** X3 (difficulty of a chain that exists).  A chain obtained from
    [NewBlockchain] by [AddBlock] calls has a difficulty between 0 and 64:
    its genesis block was sealed, and no digest has more than 64 leading
    zeros. *)
Theorem produced_difficulty_at_most_64 (bc : Blockchain) :
  produced bc -> 0 <= Difficulty bc <= 64.
Proof.
  intros P. split; [apply (produced_difficulty bc P) |].
  destruct (produced_genesis bc P) as (g & G & _).
  apply nth_error_In in G.
  destruct (produced_sealed bc g P G) as [Hh Hm].
  unfold meets in Hm. apply Z.leb_le in Hm.
  pose proof (leading_zeros_le_length (Hash g)) as L.
  assert (String.length (Hash g) = 64%nat) by (rewrite Hh; apply length_calculateHash).
  lia.
Qed.

Lemma produced_difficulty_at_most_64_witness :
  produced demo_chain2 /\ 0 <= Difficulty demo_chain2 <= 64.
Proof.
  exact (conj demo_produced (produced_difficulty_at_most_64 demo_chain2 demo_produced)).
Defined.

(** X4 (searches that never return).  At a difficulty above 64 [mineBlock]
    and [NewBlock] never return, however long they run, and neither does
    [AddBlock] on a chain that carries such a difficulty. *)
Theorem above_64_never_returns (fuel : nat) (d now : Z) (data prevHash : string) :
  64 < d ->
  (forall r, mineBlock fuel d now data prevHash <> Done r)
  /\ (forall b, NewBlock fuel now data prevHash d <> Done b)
  /\ (forall bc bc', Difficulty bc = d -> AddBlock fuel now bc data <> Done bc').
Proof.
  intros D. split; [| split].
  - intros r. now apply mineBlock_above_64_never_Done.
  - intros b H. apply NewBlock_Done in H. destruct H as (n & h & M & _).
    exact (mineBlock_above_64_never_Done _ _ _ _ _ _ D M).
  - intros bc bc' <- H. apply AddBlock_Done in H. destruct H as (p & n & h & _ & M & _).
    exact (mineBlock_above_64_never_Done _ _ _ _ _ _ D M).
Qed.

Lemma above_64_never_returns_witness :
  (forall r, mineBlock 1000 65 1700000014 "Genesis Block" "" <> Done r)
  /\ (forall bc',
         AddBlock 1000 1700000040 {| Blocks := [demo_genesis]; Difficulty := 100 |} "x"
         <> Done bc').
Proof.
  split.
  - apply (above_64_never_returns 1000 65 1700000014 "Genesis Block" ""). lia.
  - intros bc'.
    apply (above_64_never_returns 1000 100 1700000040 "x" ""); [lia | reflexivity].
Defined.

(** At difficulty 65 the search is still running after its fifth digest. *)
Example mineBlock_65_still_running :
  mineBlock 5 65 1700000014 "Genesis Block" "" = Timeout.
Proof. apply mineBlock_above_64; [lia | reflexivity]. Qed.

(** ** Sequences of calls *)

Lemma AddBlocks_Done (fuel : nat) (calls : list (Z * string)) (bc bc' : Blockchain) :
  AddBlocks fuel bc calls = Done bc' ->
  Difficulty bc' = Difficulty bc
  /\ exists new, Blocks bc' = (Blocks bc ++ new)%list
                 /\ map Data new = map snd calls
                 /\ map Timestamp new = map fst calls.
Proof.
  revert bc. induction calls as [| [now data] calls IH]; intros bc H.
  - injection H as <-. split; [reflexivity |]. exists []. now rewrite app_nil_r.
  - cbn [AddBlocks] in H. apply bind_Done in H. destruct H as (bc1 & A & H).
    apply IH in H. destruct H as (D & new & B & HD & HT).
    apply AddBlock_Done in A. destruct A as (p & n & h & _ & _ & ->).
    cbn [Blocks Difficulty] in *. split; [exact D |].
    eexists (_ :: new). split; [rewrite B, <- app_assoc; reflexivity |].
    cbn [map Data Timestamp fst snd]. now rewrite HD, HT.
Qed.

Lemma AddBlocks_produced (fuel : nat) (calls : list (Z * string)) (bc bc' : Blockchain) :
  produced bc -> AddBlocks fuel bc calls = Done bc' -> produced bc'.
Proof.
  revert bc. induction calls as [| [now data] calls IH]; intros bc P H.
  - now injection H as <-.
  - cbn [AddBlocks] in H. apply bind_Done in H. destruct H as (bc1 & A & H).
    apply (IH bc1); [| exact H]. now apply (produced_append fuel now data bc).
Qed.

Lemma demo_appended_both :
  AddBlocks 4 demo_chain0
            [(1700000027, "Send 1 BTC to Alex"); (1700000031, "Send 2 BTC to Ben")]
  = Done demo_chain2.
Proof. vm_compute. reflexivity. Qed.

(** X5 (length and difficulty of a grown chain).  After [NewBlockchain(d)]
    and any sequence of [AddBlock] calls that all return, the chain holds one
    block more than there were calls, it still starts with the blocks it had,
    and its difficulty is still [d]. *)
Theorem chain_length_counts_calls (fuel0 fuel : nat) (now0 d : Z)
        (calls : list (Z * string)) (bc0 bc : Blockchain) :
  NewBlockchain fuel0 now0 d = Done bc0 ->
  AddBlocks fuel bc0 calls = Done bc ->
  List.length (Blocks bc) = S (List.length calls)
  /\ firstn 1 (Blocks bc) = Blocks bc0
  /\ Difficulty bc = d.
Proof.
  intros C A. apply AddBlocks_Done in A. destruct A as (D & new & B & HD & _).
  apply NewBlockchain_Done in C. destruct C as (n & h & _ & ->).
  cbn [Blocks Difficulty] in *. rewrite B. split; [| split; [reflexivity | exact D]].
  cbn [List.length app]. f_equal.
  rewrite <- (length_map Data new), HD. apply length_map.
Qed.

Lemma chain_length_counts_calls_witness :
  List.length (Blocks demo_chain2) = 3%nat
  /\ firstn 1 (Blocks demo_chain2) = Blocks demo_chain0
  /\ Difficulty demo_chain2 = 1.
Proof.
  exact (chain_length_counts_calls _ _ _ _ _ _ _ demo_created demo_appended_both).
Defined.

(** X6 (what a chain records).  After [NewBlockchain] and a sequence of
    [AddBlock] calls that all return, the data of the blocks are "Genesis
    Block" followed by the data of the calls, in the order of the calls, and
    the timestamps are the clock readings of the calls, in the same order. *)
Theorem chain_records_calls (fuel0 fuel : nat) (now0 d : Z)
        (calls : list (Z * string)) (bc0 bc : Blockchain) :
  NewBlockchain fuel0 now0 d = Done bc0 ->
  AddBlocks fuel bc0 calls = Done bc ->
  map Data (Blocks bc) = "Genesis Block" :: map snd calls
  /\ map Timestamp (Blocks bc) = now0 :: map fst calls.
Proof.
  intros C A. apply AddBlocks_Done in A. destruct A as (_ & new & B & HD & HT).
  apply NewBlockchain_Done in C. destruct C as (n & h & _ & ->).
  cbn [Blocks] in B. rewrite B. cbn [app map Data Timestamp].
  now rewrite HD, HT.
Qed.

Lemma chain_records_calls_witness :
  map Data (Blocks demo_chain2)
  = ["Genesis Block"; "Send 1 BTC to Alex"; "Send 2 BTC to Ben"]
  /\ map Timestamp (Blocks demo_chain2) = [1700000014; 1700000027; 1700000031].
Proof.
  exact (chain_records_calls _ _ _ _ _ _ _ demo_created demo_appended_both).
Defined.

(** ** The cost of a search *)

Section SearchCost.

Variables (target : string) (timestamp : Z) (data prevHash : string).

Local Abbreviation test := (hit target timestamp data prevHash).
Local Abbreviation run fuel := (mine_loop fuel target timestamp data prevHash).
Local Abbreviation digest := (calculateHash timestamp data prevHash).

(** Entered in iteration [i], with the first passing nonce in iteration
    [k], the loop returns if and only if its fuel reaches iteration [k]. *)
Lemma mine_loop_first_hit (fuel i k : nat) :
  (i <= k)%nat -> test (nonce_at k) = true ->
  (forall j, (i <= j < k)%nat -> test (nonce_at j) = false) ->
  run fuel (nonce_at i)
  = if (k <? i + fuel)%nat then Done (nonce_at k, digest (nonce_at k)) else Timeout.
Proof.
  intros L Hk Hj. destruct (Nat.ltb_spec k (i + fuel)) as [B | B].
  - apply mine_loop_Done. exists k. split; [lia |]. now do 3 (split; [trivial |]).
  - pose proof (mine_loop_no_panic target timestamp data prevHash fuel (nonce_at i)) as P.
    destruct (run fuel (nonce_at i)) as [[n h] | msg |] eqn:R;
      [exfalso | discriminate P | reflexivity].
    apply mine_loop_Done in R. destruct R as (k' & K' & -> & _ & T & _).
    rewrite Hj in T by lia. discriminate.
Qed.

(** If some nonce within reach of the fuel passes, the loop returns, at
    that iteration or before. *)
Lemma mine_loop_some_hit (fuel i k : nat) :
  (i <= k < i + fuel)%nat -> test (nonce_at k) = true ->
  exists k', (i <= k' <= k)%nat
             /\ run fuel (nonce_at i) = Done (nonce_at k', digest (nonce_at k')).
Proof.
  revert i. induction fuel as [| fuel IH]; intros i K Hk; [lia |].
  rewrite mine_loop_step. destruct (test (nonce_at i)) eqn:E.
  - exists i. split; [lia | reflexivity].
  - assert (i <> k) by (intros ->; rewrite E in Hk; discriminate).
    rewrite nonce_at_succ.
    destruct (IH (S i) ltac:(lia) Hk) as (k' & K' & R).
    exists k'. split; [lia | exact R].
Qed.

(** A non-negative result was found in the iteration of its own number. *)
Lemma mine_loop_index (fuel : nat) (n : Z) (h : string) :
  run fuel 0 = Done (n, h) -> 0 <= n ->
  (Z.to_nat n < fuel)%nat /\ nonce_at (Z.to_nat n) = n /\ n <= max_int
  /\ h = digest n /\ test n = true
  /\ forall j, (j < Z.to_nat n)%nat -> test (nonce_at j) = false.
Proof.
  intros H Hn. change 0 with (nonce_at 0) in H.
  apply mine_loop_Done in H. destruct H as (k & K & -> & -> & Hk & Hj).
  destruct (nonce_at_nonneg k Hn) as [E1 E2].
  set (k' := Z.to_nat (nonce_at k)) in *.
  assert (L : (k' <= k)%nat).
  { unfold k'. rewrite E1.
    pose proof (Z.mod_le (Z.of_nat k) (2 ^ 64) ltac:(lia) ltac:(lia)). lia. }
  assert (k' = k) as ->.
  { destruct (Nat.eq_dec k' k) as [e | N]; [exact e | exfalso].
    rewrite <- E2, (Hj k') in Hk by lia. discriminate. }
  pose proof (wrap_int_range (Z.of_nat k)) as R. fold (nonce_at k) in R.
  split; [lia |]. split; [exact E2 |]. split; [lia |].
  do 2 (split; [trivial |]). intros j J. apply Hj. lia.
Qed.

End SearchCost.

(** X7 (cost of a search).  A search that returns the non-negative nonce
    [n] computes exactly [n + 1] digests: every run of the same search
    returns the same pair if it is given more than [n] iterations, and is
    still running after any smaller number of them. *)
Theorem mineBlock_iterations (fuel : nat) (d timestamp : Z) (data prevHash : string)
        (n : Z) (h : string) :
  mineBlock fuel d timestamp data prevHash = Done (n, h) -> 0 <= n ->
  forall fuel',
    mineBlock fuel' d timestamp data prevHash
    = if n <? Z.of_nat fuel' then Done (n, h) else Timeout.
Proof.
  intros H Hn fuel'.
  apply mineBlock_Done in H. destruct H as [D L].
  destruct (mine_loop_index _ _ _ _ _ _ _ L Hn) as (_ & E & _ & -> & T & F).
  unfold mineBlock. rewrite (proj2 (Repeat_Done d _) (conj D eq_refl)). cbn [bind].
  change 0 with (nonce_at 0).
  rewrite (mine_loop_first_hit _ _ _ _ fuel' 0%nat (Z.to_nat n)).
  - rewrite E.
    destruct (Nat.ltb_spec (Z.to_nat n) (0 + fuel')), (Z.ltb_spec n (Z.of_nat fuel'));
      try reflexivity; lia.
  - lia.
  - now rewrite E.
  - intros j J. apply F. lia.
Qed.

Lemma mineBlock_iterations_witness :
  mineBlock 3 1 1700000031 "Send 2 BTC to Ben" (Hash demo_block1) = Timeout
  /\ mineBlock 4 1 1700000031 "Send 2 BTC to Ben" (Hash demo_block1)
     = Done (3, Hash demo_block2)
  /\ mineBlock 50 1 1700000031 "Send 2 BTC to Ben" (Hash demo_block1)
     = Done (3, Hash demo_block2).
Proof.
  pose proof (mineBlock_iterations _ _ _ _ _ _ _ demo_sealed ltac:(cbn; lia)) as H.
  split; [exact (H 3%nat) |]. split; [exact (H 4%nat) | exact (H 50%nat)].
Defined.

(** X8 (work grows with the difficulty).  If the search at difficulty [d]
    returns a non-negative nonce [n], then with the same budget the search
    for the same content at any difficulty between 0 and [d] returns too,
    with a non-negative nonce that is at most [n]. *)
Theorem lower_difficulty_needs_no_more_work
        (fuel : nat) (d d' timestamp : Z) (data prevHash : string) (n : Z) (h : string) :
  0 <= d' <= d ->
  mineBlock fuel d timestamp data prevHash = Done (n, h) -> 0 <= n ->
  exists n' h', mineBlock fuel d' timestamp data prevHash = Done (n', h')
                /\ 0 <= n' <= n.
Proof.
  intros D' H Hn.
  apply mineBlock_Done in H. destruct H as [D L].
  destruct (mine_loop_index _ _ _ _ _ _ _ L Hn) as (K & E & M & -> & T & _).
  assert (R : strings.Repeat "0" d = Done (strings.repeat_string "0" (Z.to_nat d)))
    by now apply Repeat_Done.
  assert (R' : strings.Repeat "0" d' = Done (strings.repeat_string "0" (Z.to_nat d')))
    by (apply Repeat_Done; split; [lia | reflexivity]).
  assert (T' : hit (strings.repeat_string "0" (Z.to_nat d')) timestamp data prevHash
                   (nonce_at (Z.to_nat n)) = true).
  { rewrite E. unfold hit in *.
    rewrite (HasPrefix_meets d _ _ R) in T. rewrite (HasPrefix_meets d' _ _ R').
    unfold meets in *. apply Z.leb_le in T. apply Z.leb_le. lia. }
  destruct (mine_loop_some_hit _ timestamp data prevHash fuel 0%nat (Z.to_nat n)
              ltac:(lia) T') as (k' & K' & Run).
  exists (nonce_at k'), (calculateHash timestamp data prevHash (nonce_at k')).
  split.
  - apply mineBlock_Done. split; [lia | exact Run].
  - rewrite nonce_at_small by lia. lia.
Qed.

Lemma lower_difficulty_needs_no_more_work_witness :
  exists n' h',
    mineBlock 4 0 1700000031 "Send 2 BTC to Ben" (Hash demo_block1) = Done (n', h')
    /\ 0 <= n' <= 3.
Proof.
  apply (lower_difficulty_needs_no_more_work 4 1 0 _ _ _ 3 (Hash demo_block2));
    [lia | exact demo_sealed | lia].
Defined.

(** ** What the digest does not tell apart *)

Lemma string_app_assoc (a b c : string) : ((a ++ b) ++ c = a ++ (b ++ c))%string.
Proof. induction a as [| x a IH]; [reflexivity |]. cbn. now rewrite IH. Qed.

(** Two contents with the same digest at every nonce are searched alike. *)
Lemma mine_loop_ext (fuel : nat) (target : string) (timestamp timestamp' : Z)
      (data data' prevHash prevHash' : string) (nonce : Z) :
  (forall n, calculateHash timestamp data prevHash n
             = calculateHash timestamp' data' prevHash' n) ->
  mine_loop fuel target timestamp data prevHash nonce
  = mine_loop fuel target timestamp' data' prevHash' nonce.
Proof.
  intros E. revert nonce. induction fuel as [| fuel IH]; intros nonce; [reflexivity |].
  cbn [mine_loop]. rewrite E.
  destruct (strings.HasPrefix _ target); [reflexivity | apply IH].
Qed.

Lemma mineBlock_ext (fuel : nat) (d timestamp timestamp' : Z)
      (data data' prevHash prevHash' : string) :
  (forall n, calculateHash timestamp data prevHash n
             = calculateHash timestamp' data' prevHash' n) ->
  mineBlock fuel d timestamp data prevHash = mineBlock fuel d timestamp' data' prevHash'.
Proof.
  intros E. unfold mineBlock.
  destruct (strings.Repeat "0" d) as [target | msg |]; cbn [bind]; try reflexivity.
  now apply mine_loop_ext.
Qed.

Lemma calculateHash_shift_data (timestamp : Z) (a b prevHash : string) (nonce : Z) :
  calculateHash timestamp (a ++ b) prevHash nonce
  = calculateHash timestamp a (b ++ prevHash) nonce.
Proof.
  unfold calculateHash. do 4 f_equal.
  now rewrite !string_app_assoc.
Qed.

(** X9 (data and previous hash run together).  The digest is taken of the
    fields written one after the other with nothing between them, so bytes
    at the end of the data can be moved to the front of the previous hash
    without changing the digest, nor what a search returns. *)
Theorem data_prevHash_boundary (timestamp : Z) (a b prevHash : string) :
  (forall nonce,
      calculateHash timestamp (a ++ b) prevHash nonce
      = calculateHash timestamp a (b ++ prevHash) nonce)
  /\ (forall fuel d,
         mineBlock fuel d timestamp (a ++ b) prevHash
         = mineBlock fuel d timestamp a (b ++ prevHash)).
Proof.
  split.
  - intros nonce. apply calculateHash_shift_data.
  - intros fuel d. apply mineBlock_ext. intros n. apply calculateHash_shift_data.
Qed.

(** The digit loop does not depend on fuel it does not use, and writes in
    front of what it is given. *)
Lemma formatBits_fuel (fuel fuel' : nat) (u : Z) (a : string) :
  fuel <> O -> fuel' <> O -> 0 <= u < 2 ^ Z.of_nat fuel -> u < 2 ^ Z.of_nat fuel' ->
  strconv.formatBits fuel u a = strconv.formatBits fuel' u a.
Proof.
  revert fuel' u a. induction fuel as [| fuel IH]; intros fuel' u a F F' B B';
    [contradiction |].
  destruct fuel' as [| fuel']; [contradiction |].
  cbn [strconv.formatBits].
  destruct (Z.leb_spec 10 u) as [L | L]; [| reflexivity].
  assert (Q : 1 <= u / 10) by (apply Z.div_le_lower_bound; lia).
  rewrite !Nat2Z.inj_succ, !Z.pow_succ_r in * by lia.
  assert (u / 10 < 2 ^ Z.of_nat fuel) by (apply Z.div_lt_upper_bound; lia).
  assert (u / 10 < 2 ^ Z.of_nat fuel') by (apply Z.div_lt_upper_bound; lia).
  apply IH; try lia.
  - intros ->. cbn in *. lia.
  - intros ->. cbn in *. lia.
Qed.

Lemma formatBits_app (fuel : nat) (u : Z) (a : string) :
  strconv.formatBits fuel u a = (strconv.formatBits fuel u "" ++ a)%string.
Proof.
  revert u a. induction fuel as [| fuel IH]; intros u a; [reflexivity |].
  cbn [strconv.formatBits]. destruct (10 <=? u); [| reflexivity].
  rewrite (IH _ (String _ a)), (IH _ (String _ "")), string_app_assoc. reflexivity.
Qed.

(** The decimal text of [10 * u + k] is that of [u] followed by the digit [k]. *)
Lemma FormatInt_times_ten (u k : Z) :
  1 <= u -> 0 <= k < 10 ->
  strconv.FormatInt (10 * u + k)
  = (strconv.FormatInt u ++ String (strconv.digit k) "")%string.
Proof.
  intros U K. unfold strconv.FormatInt.
  destruct (Z.ltb_spec (10 * u + k) 0); [lia |].
  destruct (Z.ltb_spec u 0); [lia |].
  rewrite !Z.abs_eq by lia.
  set (z := 10 * u + k).
  assert (Dv : z / 10 = u) by (symmetry; apply (Z.div_unique z 10 u k); lia).
  assert (Md : z mod 10 = k) by (symmetry; apply (Z.mod_unique z 10 u k); lia).
  assert (Lg : 3 <= Z.log2 z) by (change 3 with (Z.log2 8); apply Z.log2_le_mono; lia).
  pose proof (enough_fuel z ltac:(lia)) as Bz.
  pose proof (enough_fuel u ltac:(lia)) as Bu.
  remember (strconv.formatBits (S (Z.to_nat (Z.log2 u))) u "") as text eqn:Text.
  cbn [strconv.formatBits].
  destruct (Z.leb_spec 10 z); [| lia].
  rewrite Dv, Md, formatBits_app. f_equal. subst text.
  rewrite Nat2Z.inj_succ, Z.pow_succ_r in Bz by lia.
  apply formatBits_fuel; try lia; try discriminate.
Qed.

(** X10 (timestamp and data run together).  A decimal digit at the front of
    the data can be moved to the end of the timestamp: for a timestamp
    [t >= 1] and a digit [k], the content with timestamp [10 * t + k] and
    data [s] has the same digest, at every nonce, as the content with
    timestamp [t] and data [k] followed by [s]; a search returns the same
    for both. *)
Theorem timestamp_data_boundary (t k : Z) (s prevHash : string) :
  1 <= t -> 0 <= k < 10 ->
  (forall nonce,
      calculateHash (10 * t + k) s prevHash nonce
      = calculateHash t (String (strconv.digit k) s) prevHash nonce)
  /\ (forall fuel d,
         mineBlock fuel d (10 * t + k) s prevHash
         = mineBlock fuel d t (String (strconv.digit k) s) prevHash).
Proof.
  intros T K.
  assert (E : forall nonce,
             calculateHash (10 * t + k) s prevHash nonce
             = calculateHash t (String (strconv.digit k) s) prevHash nonce).
  { intros nonce. unfold calculateHash. do 4 f_equal.
    rewrite FormatInt_times_ten by assumption.
    now rewrite string_app_assoc. }
  split; [exact E |]. intros fuel d. now apply mineBlock_ext.
Qed.

Lemma timestamp_data_boundary_witness :
  calculateHash 1700000014 "Genesis Block" "" 2
  = calculateHash 170000001 "4Genesis Block" "" 2
  /\ mineBlock 3 1 1700000014 "Genesis Block" ""
     = mineBlock 3 1 170000001 "4Genesis Block" "".
Proof.
  destruct (timestamp_data_boundary 170000001 4 "Genesis Block" "") as [H M];
    [lia | lia |].
  split; [exact (H 2) | exact (M 3%nat 1)].
Defined.

(** ** The program as a whole *)

Lemma NewBlockchain_no_panic (fuel : nat) (now d : Z) :
  0 <= d <= max_alloc -> panics (NewBlockchain fuel now d) = false.
Proof.
  intros D. unfold NewBlockchain, NewGenesisBlock.
  apply panics_bind; [now apply NewBlock_no_panic | reflexivity].
Qed.

Lemma AddBlock_no_panic (fuel : nat) (now : Z) (bc : Blockchain) (data : string) :
  produced bc -> panics (AddBlock fuel now bc data) = false.
Proof.
  intros P. unfold AddBlock.
  destruct (index_last_nonempty (Blocks bc) (produced_nonempty bc P)) as (p & ->).
  cbn [bind]. apply panics_bind; [| reflexivity].
  apply NewBlock_no_panic. now apply produced_difficulty.
Qed.

(** One turn of the loop writes the text of its block and logs nothing. *)
Lemma print_block_text (w : world) (i : Z) (block : Block) (bc : Blockchain) :
  stdout (print_block w i block bc)
  = (stdout w ++ block_text i block (Difficulty bc))%string
  /\ logged (print_block w i block bc) = logged w.
Proof.
  split; [| reflexivity].
  unfold print_block, block_text, fmt.Printf, fmt.Println. cbn [stdout logged].
  rewrite !FormatInt_decimal, !string_app_assoc. reflexivity.
Qed.

(** X11 (the program does not panic).  Whatever the clock shows and however
    long it runs, [main] does not panic: its difficulty is valid, and it
    appends only to the chain it has created. *)
Theorem main_never_panics (fuel : nat) (now0 now1 now2 : Z) (w : world) :
  panics (main fuel now0 now1 now2 w) = false.
Proof.
  unfold main.
  apply panics_bind; [apply NewBlockchain_no_panic; unfold max_alloc; lia |].
  intros bc0 C. assert (P0 : produced bc0) by exact (produced_create _ _ _ _ C).
  apply panics_bind; [now apply AddBlock_no_panic |].
  intros bc1 A1. assert (P1 : produced bc1) by exact (produced_append _ _ _ _ _ P0 A1).
  apply panics_bind; [now apply AddBlock_no_panic | reflexivity].
Qed.

Lemma main_run : main 3 1700146207 1700189420 1700210161 silent = Done run_world.
Proof. vm_compute. reflexivity. Qed.

(** X12 (what the program prints).  If [main] returns, it has logged its
    seven messages in order and printed, after what was on standard output
    before, exactly three blocks, numbered 0, 1 and 2, at difficulty 4: the
    genesis block and the blocks of "Send 1 BTC to Alex" and "Send 2 BTC to
    Ben", stamped with the three clock readings, each linked to the one
    before it, each with a hash of at least four leading zeros. *)
Theorem main_output (fuel : nat) (now0 now1 now2 : Z) (w w' : world) :
  main fuel now0 now1 now2 w = Done w' ->
  exists g b1 b2,
    stdout w' = (stdout w ++ block_text 0 g 4 ++ block_text 1 b1 4
                 ++ block_text 2 b2 4)%string
    /\ logged w' = (logged w ++ main_messages)%list
    /\ produced {| Blocks := [g; b1; b2]; Difficulty := 4 |}
    /\ (Timestamp g, Data g, PrevBlockHash g) = (now0, "Genesis Block", "")
    /\ (Timestamp b1, Data b1, PrevBlockHash b1) = (now1, "Send 1 BTC to Alex", Hash g)
    /\ (Timestamp b2, Data b2, PrevBlockHash b2) = (now2, "Send 2 BTC to Ben", Hash b1)
    /\ (4 <= leading_zeros (Hash g))%nat
    /\ (4 <= leading_zeros (Hash b1))%nat
    /\ (4 <= leading_zeros (Hash b2))%nat.
Proof.
  unfold main. intros H.
  apply bind_Done in H. destruct H as (bc0 & C & H).
  apply bind_Done in H. destruct H as (bc1 & A1 & H).
  apply bind_Done in H. destruct H as (bc2 & A2 & H).
  injection H as <-.
  assert (P0 : produced bc0) by exact (produced_create _ _ _ _ C).
  assert (P1 : produced bc1) by exact (produced_append _ _ _ _ _ P0 A1).
  assert (P2 : produced bc2) by exact (produced_append _ _ _ _ _ P1 A2).
  apply NewBlockchain_Done in C. destruct C as (n0 & h0 & M0 & ->).
  apply AddBlock_Done in A1. destruct A1 as (p1 & n1 & h1 & L1 & M1 & ->).
  cbn in L1. injection L1 as <-. cbn [Blocks Difficulty Hash app] in *.
  apply AddBlock_Done in A2. destruct A2 as (p2 & n2 & h2 & L2 & M2 & ->).
  cbn in L2. injection L2 as <-. cbn [Blocks Difficulty Hash app] in *.
  apply mineBlock_sound in M0, M1, M2.
  destruct M0 as (_ & _ & Z0), M1 as (_ & _ & Z1), M2 as (_ & _ & Z2).
  unfold meets in *. apply Z.leb_le in Z0, Z1, Z2.
  do 3 eexists. split; [| split; [| split; [exact P2 |]]].
  - cbn [print_blocks].
    repeat match goal with
           | |- context [stdout (print_block ?x ?i ?b ?c)] =>
               rewrite (proj1 (print_block_text x i b c))
           end.
    cbn [stdout Difficulty Z.add Pos.add Pos.succ]. now rewrite !string_app_assoc.
  - cbn [print_blocks].
    repeat match goal with
           | |- context [logged (print_block ?x ?i ?b ?c)] =>
               rewrite (proj2 (print_block_text x i b c))
           end.
    cbn [logged log.Println]. rewrite <- !app_assoc. reflexivity.
  - cbn [Timestamp Data PrevBlockHash Hash]. repeat split; lia.
Qed.

Lemma main_output_witness :
  main 3 1700146207 1700189420 1700210161 silent = Done run_world
  /\ exists g b1 b2,
       stdout run_world = (block_text 0 g 4 ++ block_text 1 b1 4 ++ block_text 2 b2 4)%string
       /\ logged run_world = main_messages
       /\ Data b2 = "Send 2 BTC to Ben"
       /\ (4 <= leading_zeros (Hash b2))%nat.
Proof.
  split; [exact main_run |].
  destruct (main_output _ _ _ _ _ _ main_run)
    as (g & b1 & b2 & Out & Log & _ & _ & _ & D2 & _ & _ & Z2).
  exists g, b1, b2. split; [exact Out |]. split; [exact Log |].
  split; [| exact Z2]. now injection D2.
Defined.

(** ** One call on any chain *)

(** X13 (what one call appends).  On any chain, produced by the program or
    not, a call of [AddBlock] that returns has appended exactly one block:
    it carries the data and the clock reading of the call, its previous hash
    is the stored hash of the block that was last, its hash is the digest of
    its own fields and has as many leading zeros as the difficulty of the
    chain asks for.  The blocks already there are not examined. *)
Theorem AddBlock_new_block (fuel : nat) (now : Z) (bc : Blockchain) (data : string)
        (bc' : Blockchain) :
  AddBlock fuel now bc data = Done bc' ->
  exists prevBlock newBlock,
    nth_error (Blocks bc) (Nat.pred (List.length (Blocks bc))) = Some prevBlock
    /\ Blocks bc' = (Blocks bc ++ [newBlock])%list
    /\ Timestamp newBlock = now
    /\ Data newBlock = data
    /\ PrevBlockHash newBlock = Hash prevBlock
    /\ Hash newBlock = calculateHash now data (Hash prevBlock) (Nonce newBlock)
    /\ 0 <= Difficulty bc <= Z.of_nat (leading_zeros (Hash newBlock)).
Proof.
  intros A. apply AddBlock_Done in A. destruct A as (p & n & h & L & M & ->).
  apply mineBlock_sound in M. destruct M as (D & -> & M).
  exists p. eexists. split; [exact L |]. split; [reflexivity |].
  cbn [Timestamp Data PrevBlockHash Hash Nonce]. repeat split; try lia.
  now apply Z.leb_le.
Qed.

Lemma AddBlock_new_block_witness :
  exists prevBlock newBlock,
    nth_error (Blocks demo_chain1) 1 = Some prevBlock
    /\ Blocks demo_chain2 = (Blocks demo_chain1 ++ [newBlock])%list
    /\ Data newBlock = "Send 2 BTC to Ben"
    /\ PrevBlockHash newBlock = Hash prevBlock.
Proof.
  destruct (AddBlock_new_block _ _ _ _ _ demo_appended2)
    as (p & b & L & B & _ & D & Pv & _).
  exists p, b. split; [exact L |]. split; [exact B |]. split; [exact D | exact Pv].
Defined.

(** ** The genesis block *)

Lemma digest_string_nonempty (s : string) : is_digest_string s = true -> s <> "".
Proof. intros H ->. discriminate H. Qed.

(** X14 (the genesis block is recognisable).  In a produced chain the block
    at index 0 is the only one whose previous hash is the empty string. *)
Theorem only_genesis_has_empty_prev (bc : Blockchain) (i : nat) (b : Block) :
  produced bc -> nth_error (Blocks bc) i = Some b ->
  (PrevBlockHash b = "" <-> i = O).
Proof.
  intros P Hb. split.
  - intros E. destruct i as [| j]; [reflexivity | exfalso].
    destruct (nth_error (Blocks bc) j) as [b0 |] eqn:Hj.
    + rewrite (produced_linked bc j b0 b P Hj Hb) in E.
      apply (digest_string_nonempty (Hash b0)); [| exact E].
      rewrite (proj1 (produced_sealed bc b0 P (nth_error_In _ _ Hj))).
      apply calculateHash_shape.
    + apply nth_error_None in Hj.
      assert (S j < List.length (Blocks bc))%nat by (apply nth_error_Some; congruence).
      lia.
  - intros ->. destruct (produced_genesis bc P) as (g & G & E & _). congruence.
Qed.

Lemma only_genesis_has_empty_prev_witness :
  PrevBlockHash demo_genesis = "" /\ PrevBlockHash demo_block2 <> "".
Proof.
  split.
  - now apply (only_genesis_has_empty_prev demo_chain2 0 demo_genesis demo_produced).
  - intros E.
    now apply (only_genesis_has_empty_prev demo_chain2 2 demo_block2 demo_produced) in E.
Defined.
